(** * El 32 landing scripts: the gallery lightbox and the ambient driver

    A shallow embedding of two parts of [src/js/main.js]:

    - the party-gallery lightbox (index arithmetic, open/close, keyboard
      and button navigation, the pointer-driven swipe with its
      distance/velocity thresholds and its slide animation);
    - the ambient light-field driver (frame throttle, drift formulas,
      write suppression, start/stop of the animation-frame loop).

    JavaScript numbers are modelled exactly: pixel coordinates, times and
    opacities of the lightbox as rationals ([Q]), the drift of the ambient
    driver as reals ([R], because of [Math.sin]/[Math.cos]), the gallery
    index as an integer or [NaN].  Rounding of IEEE doubles is not
    modelled. *)

From Stdlib Require Import ZArith QArith Qabs List String Bool Lia.
From Stdlib Require Lqa Lra Reals.
Import ListNotations.

(* ===================================================================== *)
(** * Party gallery lightbox *)
(* ===================================================================== *)

Module Lightbox.

Import Lqa.
Local Open Scope Q_scope.

(** ** JavaScript helpers *)

(** [Math.max], [Math.min] and [Math.abs] on finite numbers. *)
Definition Math_max (a b : Q) : Q := if Qle_bool a b then b else a.
Definition Math_min (a b : Q) : Q := if Qle_bool a b then a else b.
Definition Math_abs (a : Q) : Q := Qabs a.

(** [a > b] and [a < b] on finite numbers. *)
Definition gtb (a b : Q) : bool := negb (Qle_bool a b).
Definition ltb (a b : Q) : bool := negb (Qle_bool b a).

(** [const clamp = (v, min, max) => Math.max(min, Math.min(max, v))] *)
Definition clamp (v min max : Q) : Q := Math_max min (Math_min max v).

(** The gallery index is a JavaScript number that is either an integer or
    [NaN] (the result of [x % 0]). *)
Inductive jsint : Type :=
| NaN
| Int (z : Z).

Definition js_add (a : jsint) (k : Z) : jsint :=
  match a with
  | NaN => NaN
  | Int z => Int (z + k)
  end.

(** The [%] operator: remainder with the sign of the dividend, [NaN] when
    the divisor is zero. *)
Definition js_rem (a : jsint) (n : Z) : jsint :=
  match a with
  | NaN => NaN
  | Int z => if (n =? 0)%Z then NaN else Int (Z.rem z n)
  end.

(** ** Static page structure *)

(** A gallery thumbnail: its [data-full] and [src] attributes
    ([getAttribute] yields [null] for a missing attribute). *)
Record Tile : Type := mkTile {
  data_full : option string;
  tile_src : option string
}.

(** What the defensive DOM lookups find.  [tiles] is the array
    [Array.from(document.querySelectorAll(".gallery-btn img"))]. *)
Record Dom : Type := mkDom {
  tiles : list Tile;
  has_lb : bool;
  has_imgEl : bool;
  has_stage : bool;
  has_btnPrev : bool;
  has_btnNext : bool;
  has_closeBtn : bool;
  has_scroller : bool
}.

(** Elements that can hold the focus. *)
Inductive Elem : Type :=
| GalleryBtn (k : nat)
| CloseBtn
| OtherElem (k : nat).

(** ** Deferred work: animation-frame tasks and transition listeners *)

(** The callbacks handed to [animateTo]: the snap-back callback of a
    cancelled swipe and the swap callback of a committed one, which
    closes over [dir] and [w]. *)
Inductive Callback : Type :=
| CbReset
| CbCommit (dir : Z) (w : Q).

(** Closures passed to [requestAnimationFrame]: the body of [animateTo]
    and the final "animate into place" step of a commit. *)
Inductive RafTask : Type :=
| RafAnimate (dx opacity : Q) (cb : option Callback)
| RafSettle.

(** ** Mutable state *)

(** The [let] variables of the lightbox closure. *)
Record Vars : Type := mkVars {
  index : jsint;
  isOpen : bool;
  lastActive : option Elem;
  pointerDown : bool;
  startX : Q;
  deltaX : Q;
  startT : Q;
  activePointerId : option Z;
  isAnimating : bool
}.

(** The image element [imgEl]: its [src], the [is-dragging] class, the
    inline [transform] ([Some dx] for [translate3d(dx px, 0, 0)], [None]
    for the empty string), the inline [opacity], and the one-shot
    [transitionend] listeners ([done] closures, each holding its [cb]). *)
Record Img : Type := mkImg {
  img_src : string;
  img_dragging : bool;
  img_transform : option Q;
  img_opacity : option Q;
  img_listeners : list (option Callback)
}.

(** The rest of the page the lightbox touches. *)
Record Page : Type := mkPage {
  lb_hidden : bool;
  lb_aria_hidden : string;
  scroller_overflow : string;
  preloaded : list string;
  focused : Elem;
  captured : option Z;
  rafQueue : list RafTask
}.

Record State : Type := mkState {
  vars : Vars;
  img : Img;
  page : Page
}.

(** *** Field updates *)

Definition upd_vars (f : Vars -> Vars) (s : State) : State :=
  mkState (f (vars s)) (img s) (page s).
Definition upd_img (f : Img -> Img) (s : State) : State :=
  mkState (vars s) (f (img s)) (page s).
Definition upd_page (f : Page -> Page) (s : State) : State :=
  mkState (vars s) (img s) (f (page s)).

Definition set_index (x : jsint) (v : Vars) : Vars :=
  mkVars x (isOpen v) (lastActive v) (pointerDown v) (startX v) (deltaX v)
         (startT v) (activePointerId v) (isAnimating v).
Definition set_isOpen (x : bool) (v : Vars) : Vars :=
  mkVars (index v) x (lastActive v) (pointerDown v) (startX v) (deltaX v)
         (startT v) (activePointerId v) (isAnimating v).
Definition set_lastActive (x : option Elem) (v : Vars) : Vars :=
  mkVars (index v) (isOpen v) x (pointerDown v) (startX v) (deltaX v)
         (startT v) (activePointerId v) (isAnimating v).
Definition set_pointerDown (x : bool) (v : Vars) : Vars :=
  mkVars (index v) (isOpen v) (lastActive v) x (startX v) (deltaX v)
         (startT v) (activePointerId v) (isAnimating v).
Definition set_startX (x : Q) (v : Vars) : Vars :=
  mkVars (index v) (isOpen v) (lastActive v) (pointerDown v) x (deltaX v)
         (startT v) (activePointerId v) (isAnimating v).
Definition set_deltaX (x : Q) (v : Vars) : Vars :=
  mkVars (index v) (isOpen v) (lastActive v) (pointerDown v) (startX v) x
         (startT v) (activePointerId v) (isAnimating v).
Definition set_startT (x : Q) (v : Vars) : Vars :=
  mkVars (index v) (isOpen v) (lastActive v) (pointerDown v) (startX v)
         (deltaX v) x (activePointerId v) (isAnimating v).
Definition set_activePointerId (x : option Z) (v : Vars) : Vars :=
  mkVars (index v) (isOpen v) (lastActive v) (pointerDown v) (startX v)
         (deltaX v) (startT v) x (isAnimating v).
Definition set_isAnimating (x : bool) (v : Vars) : Vars :=
  mkVars (index v) (isOpen v) (lastActive v) (pointerDown v) (startX v)
         (deltaX v) (startT v) (activePointerId v) x.

Definition set_src (x : string) (i : Img) : Img :=
  mkImg x (img_dragging i) (img_transform i) (img_opacity i) (img_listeners i).
Definition set_dragging (x : bool) (i : Img) : Img :=
  mkImg (img_src i) x (img_transform i) (img_opacity i) (img_listeners i).
Definition set_transform (x : option Q) (i : Img) : Img :=
  mkImg (img_src i) (img_dragging i) x (img_opacity i) (img_listeners i).
Definition set_opacity (x : option Q) (i : Img) : Img :=
  mkImg (img_src i) (img_dragging i) (img_transform i) x (img_listeners i).
Definition set_listeners (x : list (option Callback)) (i : Img) : Img :=
  mkImg (img_src i) (img_dragging i) (img_transform i) (img_opacity i) x.

Definition set_lb_hidden (x : bool) (p : Page) : Page :=
  mkPage x (lb_aria_hidden p) (scroller_overflow p) (preloaded p) (focused p)
         (captured p) (rafQueue p).
Definition set_lb_aria_hidden (x : string) (p : Page) : Page :=
  mkPage (lb_hidden p) x (scroller_overflow p) (preloaded p) (focused p)
         (captured p) (rafQueue p).
Definition set_scroller_overflow (x : string) (p : Page) : Page :=
  mkPage (lb_hidden p) (lb_aria_hidden p) x (preloaded p) (focused p)
         (captured p) (rafQueue p).
Definition set_preloaded (x : list string) (p : Page) : Page :=
  mkPage (lb_hidden p) (lb_aria_hidden p) (scroller_overflow p) x (focused p)
         (captured p) (rafQueue p).
Definition set_focused (x : Elem) (p : Page) : Page :=
  mkPage (lb_hidden p) (lb_aria_hidden p) (scroller_overflow p) (preloaded p)
         x (captured p) (rafQueue p).
Definition set_captured (x : option Z) (p : Page) : Page :=
  mkPage (lb_hidden p) (lb_aria_hidden p) (scroller_overflow p) (preloaded p)
         (focused p) x (rafQueue p).
Definition set_rafQueue (x : list RafTask) (p : Page) : Page :=
  mkPage (lb_hidden p) (lb_aria_hidden p) (scroller_overflow p) (preloaded p)
         (focused p) (captured p) x.

(** [requestAnimationFrame(task)] appends to the frame queue. *)
Definition requestAnimationFrame (t : RafTask) (s : State) : State :=
  upd_page (fun p => set_rafQueue (rafQueue p ++ [t]) p) s.

(** ** The lightbox closure *)

Section Operations.

Variable d : Dom.

(** [tiles.length] *)
Definition N : Z := Z.of_nat (List.length (tiles d)).

(** [tiles[i]]: [undefined] for [NaN], a negative or an out-of-range
    index. *)
Definition tile_at (i : jsint) : option Tile :=
  match i with
  | NaN => None
  | Int z => if (z <? 0)%Z then None else nth_error (tiles d) (Z.to_nat z)
  end.

(** [t?.getAttribute(name)] *)
Definition getAttribute (t : option Tile) (attr : Tile -> option string)
  : option string :=
  match t with
  | None => None
  | Some t => attr t
  end.

(** [a || b] where [a] is a string, [null] or [undefined]: the empty
    string is falsy too. *)
Definition or_else (a : option string) (b : string) : string :=
  match a with
  | Some x => if String.eqb x EmptyString then b else x
  | None => b
  end.

(** [getFullSrc]: full-resolution attribute first, then [src], then the
    empty string. *)
Definition getFullSrc (i : jsint) : string :=
  let t := tile_at (js_rem (js_add i N) N) in
  or_else (getAttribute t data_full) (or_else (getAttribute t tile_src) EmptyString).

Definition preload (src : string) (s : State) : State :=
  if String.eqb src EmptyString then s
  else upd_page (fun p => set_preloaded (preloaded p ++ [src]) p) s.

Definition setIndex (nextIndex : jsint) (s : State) : State :=
  let i := js_rem (js_add nextIndex N) N in
  let s := upd_vars (set_index i) s in
  let src := getFullSrc i in
  if String.eqb src EmptyString then s
  else
    let s := upd_img (set_src src) s in
    let s := preload (getFullSrc (js_add i (-1))) s in
    preload (getFullSrc (js_add i 1)) s.

Definition prev (s : State) : State :=
  setIndex (js_add (index (vars s)) (-1)) s.
Definition next (s : State) : State :=
  setIndex (js_add (index (vars s)) 1) s.

(** *** Open / close *)

Definition resetVisual (s : State) : State :=
  upd_img (fun i => set_opacity None (set_transform None i)) s.

Definition open (i : Z) (triggerEl : option Elem) (s : State) : State :=
  if isOpen (vars s) then s
  else
    let active :=
      match triggerEl with
      | Some e => e
      | None => focused (page s)
      end in
    let s := upd_vars (fun v => set_lastActive (Some active) (set_isOpen true v)) s in
    let s := upd_page (fun p => set_lb_aria_hidden "false" (set_lb_hidden false p)) s in
    let s := if has_scroller d
             then upd_page (set_scroller_overflow "hidden") s else s in
    let s := resetVisual (upd_img (set_dragging false) s) in
    let s := setIndex (Int i) s in
    if has_closeBtn d then upd_page (set_focused CloseBtn) s else s.

Definition close (s : State) : State :=
  if negb (isOpen (vars s)) then s
  else
    let s := upd_vars (set_isOpen false) s in
    let s := upd_page (fun p => set_lb_hidden true (set_lb_aria_hidden "true" p)) s in
    let s := if has_scroller d
             then upd_page (set_scroller_overflow EmptyString) s else s in
    let s := resetVisual (upd_img (set_dragging false) s) in
    match lastActive (vars s) with
    | Some e => upd_page (set_focused e) s
    | None => s
    end.

(** *** Swipe *)

(** [setDragVisual(dx)]; [innerWidth] is the reading of
    [window.innerWidth]. *)
Definition setDragVisual (dx innerWidth : Q) (s : State) : State :=
  let w := Math_max 320 innerWidth in
  let progress := clamp (Math_abs dx / (w * 0.9)) 0 1 in
  let opacity := 1 - progress * 0.25 in
  upd_img (fun i => set_opacity (Some opacity) (set_transform (Some dx) i)) s.

Definition animateTo (dx opacity : Q) (cb : option Callback) (s : State)
  : State :=
  if isAnimating (vars s) then s
  else
    let s := upd_vars (set_isAnimating true) s in
    let s := upd_img (set_dragging false) s in
    requestAnimationFrame (RafAnimate dx opacity cb) s.

(** The body of a callback given to [animateTo]. *)
Definition run_callback (cb : option Callback) (s : State) : State :=
  match cb with
  | None => s
  | Some CbReset => resetVisual s
  | Some (CbCommit dir w) =>
      let s := if (dir =? 1)%Z then next s else prev s in
      let s := upd_img (set_dragging true) s in
      let s := upd_img (fun i =>
                 set_opacity (Some 0.9)
                   (set_transform (Some (if (dir =? 1)%Z then w else - w)) i)) s in
      requestAnimationFrame RafSettle s
  end.

(** The [done] listener of [animateTo]. *)
Definition done (cb : option Callback) (s : State) : State :=
  run_callback cb (upd_vars (set_isAnimating false) s).

(** Running one queued animation-frame task. *)
Definition run_raf (t : RafTask) (s : State) : State :=
  match t with
  | RafAnimate dx opacity cb =>
      let s := upd_img (fun i => set_opacity (Some opacity)
                                   (set_transform (Some dx) i)) s in
      upd_img (fun i => set_listeners (img_listeners i ++ [cb]) i) s
  | RafSettle =>
      resetVisual (upd_img (set_dragging false) s)
  end.

Definition opt_Z_eqb (a b : option Z) : bool :=
  match a, b with
  | Some x, Some y => (x =? y)%Z
  | None, None => true
  | _, _ => false
  end.

Definition on_pointerdown (pointerId : Z) (clientX now : Q) (s : State)
  : State :=
  if negb (isOpen (vars s)) || isAnimating (vars s) then s
  else
    let s := upd_vars (fun v =>
               set_startT now
                 (set_deltaX 0
                    (set_startX clientX
                       (set_activePointerId (Some pointerId)
                          (set_pointerDown true v))))) s in
    let s := upd_img (set_dragging true) s in
    upd_page (set_captured (Some pointerId)) s.

Definition on_pointermove (pointerId : Z) (clientX innerWidth : Q) (s : State)
  : State :=
  if negb (pointerDown (vars s))
     || negb (opt_Z_eqb (Some pointerId) (activePointerId (vars s)))
  then s
  else
    let s := upd_vars (fun v => set_deltaX (clientX - startX v) v) s in
    setDragVisual (deltaX (vars s)) innerWidth s.

(** [finishSwipe] ignores its event argument; [now] is the reading of
    [performance.now()] and [innerWidth] that of [window.innerWidth]. *)
Definition finishSwipe (now innerWidth : Q) (s : State) : State :=
  if negb (pointerDown (vars s)) then s
  else
    let s := upd_vars (set_pointerDown false) s in
    let w := Math_max 320 innerWidth in
    let elapsed := Math_max 1 (now - startT (vars s)) in
    let velocity := deltaX (vars s) / elapsed in
    let distanceOK := gtb (Math_abs (deltaX (vars s))) (w * 0.18) in
    let velocityOK := gtb (Math_abs velocity) 0.65 in
    let dir := if ltb (deltaX (vars s)) 0 then 1%Z else (-1)%Z in
    if negb (distanceOK || velocityOK)
    then animateTo 0 1 (Some CbReset) s
    else
      let outX := if (dir =? 1)%Z then - w else w in
      animateTo outX 0.9 (Some (CbCommit dir w)) s.

(** *** Events *)

Inductive Key : Type := Escape | ArrowLeft | ArrowRight | OtherKey.

(** The events the lightbox listens to.  [ClickGallery btn img] is a
    click inside gallery button [btn] whose first image sits at position
    [img] of [tiles], if at all.  Pointer events carry [e.pointerId] and
    [e.clientX] together with the readings of [performance.now()] and
    [window.innerWidth] their handlers take. *)
Inductive Event : Type :=
| ClickGallery (btn : nat) (img : option nat)
| ClickClose
| ClickPrev
| ClickNext
| KeyDown (k : Key)
| PointerDown (pointerId : Z) (clientX now : Q)
| PointerMove (pointerId : Z) (clientX innerWidth : Q)
| PointerUp (pointerId : Z) (now innerWidth : Q)
| PointerCancel (pointerId : Z) (now innerWidth : Q)
| AnimationFrame
| TransitionEnd.

(** [tiles.indexOf(img)] *)
Definition indexOf (img : option nat) : Z :=
  match img with
  | Some k => if (k <? List.length (tiles d))%nat then Z.of_nat k else (-1)%Z
  | None => (-1)%Z
  end.

Definition on_keydown (k : Key) (s : State) : State :=
  if negb (isOpen (vars s)) then s
  else
    let s := match k with Escape => close s | _ => s end in
    let s := match k with ArrowLeft => prev s | _ => s end in
    match k with ArrowRight => next s | _ => s end.

Definition handle (e : Event) (s : State) : State :=
  match e with
  | ClickGallery btn img =>
      let i := indexOf img in
      if (i >=? 0)%Z then open i (Some (GalleryBtn btn)) s else s
  | ClickClose => if has_closeBtn d then close s else s
  | ClickPrev => if has_btnPrev d then prev s else s
  | ClickNext => if has_btnNext d then next s else s
  | KeyDown k => on_keydown k s
  | PointerDown id x now => on_pointerdown id x now s
  | PointerMove id x w => on_pointermove id x w s
  | PointerUp _ now w => finishSwipe now w s
  | PointerCancel _ now w => finishSwipe now w s
  | AnimationFrame =>
      let q := rafQueue (page s) in
      fold_left (fun s t => run_raf t s) q (upd_page (set_rafQueue []) s)
  | TransitionEnd =>
      let ls := img_listeners (img s) in
      fold_left (fun s cb => done cb s) ls (upd_img (set_listeners []) s)
  end.

Definition run (es : list Event) (s : State) : State :=
  fold_left (fun s e => handle e s) es s.

(** *** Initialisation *)

Definition initial_vars : Vars :=
  mkVars (Int 0) false None false 0 0 0 None false.

(** The closure body up to its two guards: [None] when the component
    stays inert.  [i0] and [p0] give the attributes the page was loaded
    with; nothing is queued yet. *)
Definition lightbox_init (i0 : Img) (p0 : Page) : option State :=
  if (List.length (tiles d) =? 0)%nat || negb (has_lb d) then None
  else if negb (has_imgEl d) || negb (has_stage d) then None
  else Some (mkState initial_vars (set_listeners [] i0) (set_rafQueue [] p0)).

(** States the running component can be in. *)
Inductive reachable : State -> Prop :=
| reach_init i0 p0 s :
    lightbox_init i0 p0 = Some s -> reachable s
| reach_step s e :
    reachable s -> reachable (handle e s).

(** *** Observations on states *)

(** The [done] listeners that the queued [animateTo] bodies will
    register. *)
Definition anim_cbs (q : list RafTask) : list (option Callback) :=
  flat_map (fun t => match t with
                     | RafAnimate _ _ cb => [cb]
                     | RafSettle => []
                     end) q.

(** A slide animation is under way: its frame task is queued or its
    [transitionend] listener is installed. *)
Definition in_flight (s : State) : list (option Callback) :=
  anim_cbs (rafQueue (page s)) ++ img_listeners (img s).

(** The swipe just finished was committed: the slide-out animation with
    the swap callback is the one in flight. *)
Definition commit_pending (s : State) : Prop :=
  exists dir w, In (Some (CbCommit dir w)) (in_flight s).

(** The swipe just finished was cancelled: the snap-back animation to
    offset 0 and opacity 1 is queued. *)
Definition cancel_pending (s : State) : Prop :=
  In (RafAnimate 0 1 (Some CbReset)) (rafQueue (page s)).

(** The index is a valid position in [tiles]. *)
Definition index_in_range (s : State) : Prop :=
  exists i, index (vars s) = Int i /\ (0 <= i < N)%Z.

(** The coupling between the flags, the frame queue and the listeners
    that every run of the component maintains. *)
Definition consistent (s : State) : Prop :=
  index_in_range s
  /\ (pointerDown (vars s) = true -> isAnimating (vars s) = false)
  /\ List.length (in_flight s) = (if isAnimating (vars s) then 1%nat else 0%nat).

(** *** A sample page *)

(** Three thumbnails, the first with a full-resolution variant, and
    every optional anchor present. *)
Definition sample_tiles : list Tile :=
  [ mkTile (Some "party-1-full.jpg") (Some "party-1.jpg");
    mkTile None (Some "party-2.jpg");
    mkTile None (Some "party-3.jpg") ]%string.

(** The page as loaded: lightbox hidden, nothing styled yet. *)
Definition sample_img : Img := mkImg EmptyString false None None [].
Definition sample_page : Page :=
  mkPage true "true" EmptyString [] (OtherElem 0) None [].

(** *** The swipe thresholds, in words *)

(** A finished drag qualifies as a swipe: distance beyond 18% of the
    effective width (the viewport width, but at least 320), or speed
    beyond 0.65 px/ms over the elapsed time (at least 1 ms). *)
Definition swipe_qualifies (dX startT now innerWidth : Q) : Prop :=
  Math_max 320 innerWidth * 0.18 < Qabs dX
  \/ 0.65 < Qabs (dX / Math_max 1 (now - startT)).

(** The same criterion over the raw viewport width and the raw elapsed
    time. *)
Definition swipe_qualifies_raw (dX startT now innerWidth : Q) : Prop :=
  innerWidth * 0.18 < Qabs dX
  \/ 0.65 < Qabs (dX / (now - startT)).

(** The state [finishSwipe] hands to [requestAnimationFrame] once the
    drag is over and an animation starts. *)
Definition drag_released (s : State) : State :=
  upd_img (set_dragging false)
    (upd_vars (set_isAnimating true)
       (upd_vars (set_pointerDown false) s)).

(** The events that end a drag. *)
Definition ends_drag (e : Event) (now innerWidth : Q) : Prop :=
  exists id, e = PointerUp id now innerWidth
             \/ e = PointerCancel id now innerWidth.

(** *** Navigation commands *)

(** The events the keyboard and the prev/next buttons navigate with. *)
Definition navigation (e : Event) : Prop :=
  e = KeyDown ArrowLeft \/ e = KeyDown ArrowRight
  \/ e = ClickPrev \/ e = ClickNext.

End Operations.

Definition sample_dom : Dom :=
  mkDom sample_tiles true true true true true true true.

Definition sample_start : State :=
  mkState initial_vars sample_img sample_page.

(** The lightbox opened on the first picture, then a tap (pointer down
    and up in place) whose snap-back animation is still in flight. *)
Definition sample_animating : State :=
  run sample_dom
      [ClickGallery 0 (Some 0%nat); PointerDown 1 500 0; PointerUp 1 100 1000]
      sample_start.

(** The lightbox opened on the first picture and a drag by pointer 1
    from x = 500 to [x], on a viewport [w] wide. *)
Definition sample_drag (x w : Q) : State :=
  run sample_dom
      [ClickGallery 0 (Some 0%nat); PointerDown 1 500 0; PointerMove 1 x w]
      sample_start.

End Lightbox.

(* ===================================================================== *)
(** * Ambient light-field driver *)
(* ===================================================================== *)

Module Ambient.

Import Reals.
Local Open Scope R_scope.

(** ** Capability gate *)

(** The readings taken once when the script loads.
    [hardwareConcurrency] is [None] when the browser does not expose
    it. *)
Record Caps : Type := mkCaps {
  prefersReducedMotion : bool;
  isMobile : bool;
  isIOSSafari : bool;
  hardwareConcurrency : option nat;
  has_lightfield : bool;
  has_turbulence : bool
}.

(** [(navigator.hardwareConcurrency || 4) <= 4] *)
Definition lowCoreDevice (c : Caps) : bool :=
  let n := match hardwareConcurrency c with
           | None => 4%nat
           | Some O => 4%nat
           | Some k => k
           end in
  (n <=? 4)%nat.

Definition ultraOK (c : Caps) : bool :=
  negb (prefersReducedMotion c) && negb (isMobile c)
  && negb (isIOSSafari c) && negb (lowCoreDevice c).

(** The two classes toggled on [<html>]: [(fx-ultra, fx-cheap)]. *)
Definition fx_classes (c : Caps) : bool * bool := (ultraOK c, negb (ultraOK c)).

(** ** Tuning constants *)

Definition AMP_X (c : Caps) : R :=
  if prefersReducedMotion c then 8 else if isMobile c then 24 else 56.
Definition AMP_Y (c : Caps) : R :=
  if prefersReducedMotion c then 6 else if isMobile c then 16 else 40.

Definition ENABLE_TURBULENCE (c : Caps) : bool := ultraOK c && has_turbulence c.

Definition TURB_UPDATE_MS : R := 160.
Definition BASE_FREQ_X : R := 0.012.
Definition BASE_FREQ_Y : R := 0.018.
Definition TURB_VARIANCE (c : Caps) : R :=
  if prefersReducedMotion c then 0.0004 else 0.0020.

Definition FRAME_MIN_MS : R := 33.

(** ** State *)

(** The custom properties written on the light field. *)
Inductive CssVar : Type := LfX | LfY | LfR.

Definition CssVar_eqb (a b : CssVar) : bool :=
  match a, b with
  | LfX, LfX | LfY, LfY | LfR, LfR => true
  | _, _ => false
  end.

(** The [let] variables of the driver ([lastX], [lastY], [lastR] start
    as [NaN], here [None]), the calls made so far to
    [lightfield.style.setProperty] (latest first), the [baseFrequency]
    attribute last set on the turbulence filter, and the browser's table
    of scheduled [tick] callbacks with its next free handle. *)
Record State : Type := mkState {
  rafId : option positive;
  lastFrame : R;
  lastTurb : R;
  lastX : option R;
  lastY : option R;
  lastR : option R;
  styleWrites : list (CssVar * R);
  baseFrequency : option (R * R);
  scheduled : list positive;
  nextHandle : positive
}.

(** The value a custom property currently holds, if the driver has set
    it. *)
Fixpoint css_value (v : CssVar) (ws : list (CssVar * R)) : option R :=
  match ws with
  | [] => None
  | (v', x) :: ws => if CssVar_eqb v v' then Some x else css_value v ws
  end.

(** The number of [setProperty] calls made for one property. *)
Fixpoint write_count (v : CssVar) (ws : list (CssVar * R)) : nat :=
  match ws with
  | [] => O
  | (v', _) :: ws =>
      if CssVar_eqb v v' then S (write_count v ws) else write_count v ws
  end.

Definition set_rafId (x : option positive) (s : State) : State :=
  mkState x (lastFrame s) (lastTurb s) (lastX s) (lastY s) (lastR s)
          (styleWrites s) (baseFrequency s) (scheduled s) (nextHandle s).
Definition set_lastFrame (x : R) (s : State) : State :=
  mkState (rafId s) x (lastTurb s) (lastX s) (lastY s) (lastR s)
          (styleWrites s) (baseFrequency s) (scheduled s) (nextHandle s).
Definition set_lastTurb (x : R) (s : State) : State :=
  mkState (rafId s) (lastFrame s) x (lastX s) (lastY s) (lastR s)
          (styleWrites s) (baseFrequency s) (scheduled s) (nextHandle s).
Definition set_lastX (x : option R) (s : State) : State :=
  mkState (rafId s) (lastFrame s) (lastTurb s) x (lastY s) (lastR s)
          (styleWrites s) (baseFrequency s) (scheduled s) (nextHandle s).
Definition set_lastY (x : option R) (s : State) : State :=
  mkState (rafId s) (lastFrame s) (lastTurb s) (lastX s) x (lastR s)
          (styleWrites s) (baseFrequency s) (scheduled s) (nextHandle s).
Definition set_lastR (x : option R) (s : State) : State :=
  mkState (rafId s) (lastFrame s) (lastTurb s) (lastX s) (lastY s) x
          (styleWrites s) (baseFrequency s) (scheduled s) (nextHandle s).
Definition set_baseFrequency (x : option (R * R)) (s : State) : State :=
  mkState (rafId s) (lastFrame s) (lastTurb s) (lastX s) (lastY s) (lastR s)
          (styleWrites s) x (scheduled s) (nextHandle s).

(** [lightfield.style.setProperty(v, x)] *)
Definition setProperty (v : CssVar) (x : R) (s : State) : State :=
  mkState (rafId s) (lastFrame s) (lastTurb s) (lastX s) (lastY s) (lastR s)
          ((v, x) :: styleWrites s) (baseFrequency s) (scheduled s)
          (nextHandle s).

(** [requestAnimationFrame(tick)]: registers the callback under a fresh
    handle and returns the handle. *)
Definition requestAnimationFrame (s : State) : positive * State :=
  let h := nextHandle s in
  (h, mkState (rafId s) (lastFrame s) (lastTurb s) (lastX s) (lastY s)
              (lastR s) (styleWrites s) (baseFrequency s)
              (scheduled s ++ [h]) (Pos.succ h)).

Definition cancelAnimationFrame (h : positive) (s : State) : State :=
  mkState (rafId s) (lastFrame s) (lastTurb s) (lastX s) (lastY s) (lastR s)
          (styleWrites s) (baseFrequency s)
          (List.remove Pos.eq_dec h (scheduled s)) (nextHandle s).

(** ** The driver *)

(** [Math.abs(a - b) <= eps]; a comparison with [NaN] is false. *)
Definition nearlyEqual (a : R) (b : option R) (eps : R) : bool :=
  match b with
  | None => false
  | Some b => if Rle_dec (Rabs (a - b)) eps then true else false
  end.

Section Driver.

Variable c : Caps.

(** The drift computed by [tick] from [t = time * 0.001]. *)
Definition travelX (t : R) : R := sin (t * 0.10) * (AMP_X c * 0.55).
Definition travelY (t : R) : R := cos (t * 0.09) * (AMP_Y c * 0.55).

Definition drift_x (t : R) : R :=
  travelX t + sin (t * 0.35) * AMP_X c + sin (t * 0.18) * (AMP_X c * 0.55).

Definition drift_y (t : R) : R :=
  travelY t + cos (t * 0.30) * AMP_Y c + sin (t * 0.22) * (AMP_Y c * 0.65).

Definition drift_rotation (t : R) : R :=
  sin (t * 0.12) * (if prefersReducedMotion c then 0.2 else 1.0).

(** Re-arming the loop: [rafId = requestAnimationFrame(tick)]. *)
Definition rearm (s : State) : State :=
  let (h, s) := requestAnimationFrame s in
  set_rafId (Some h) s.

Definition tick (time : R) (s : State) : State :=
  if Rlt_dec (time - lastFrame s) FRAME_MIN_MS then rearm s
  else
    let s := set_lastFrame time s in
    let t := time * 0.001 in
    let x := drift_x t in
    let y := drift_y t in
    let rotation := drift_rotation t in
    let s := if negb (nearlyEqual x (lastX s) 0.06)
             then set_lastX (Some x) (setProperty LfX x s) else s in
    let s := if negb (nearlyEqual y (lastY s) 0.06)
             then set_lastY (Some y) (setProperty LfY y s) else s in
    let s := if negb (nearlyEqual rotation (lastR s) 0.012)
             then set_lastR (Some rotation) (setProperty LfR rotation s)
             else s in
    let s := if ENABLE_TURBULENCE c
                && (if Rgt_dec (time - lastTurb s) TURB_UPDATE_MS
                    then true else false)
             then
               let s := set_lastTurb time s in
               let freqX := BASE_FREQ_X + sin (t * 0.22) * TURB_VARIANCE c in
               let freqY := BASE_FREQ_Y + cos (t * 0.19) * TURB_VARIANCE c in
               set_baseFrequency (Some (freqX, freqY)) s
             else s in
    rearm s.

Definition stop (s : State) : State :=
  match rafId s with
  | None => s
  | Some h => set_rafId None (cancelAnimationFrame h s)
  end.

Definition start (s : State) : State :=
  match rafId s with
  | Some _ => s
  | None => rearm (set_lastTurb 0 (set_lastFrame 0 s))
  end.

(** ** Events *)

(** [Frame time] is the browser running the scheduled animation-frame
    callbacks with timestamp [time]; [VisibilityChange hidden] carries
    [document.hidden]. *)
Inductive Event : Type :=
| Frame (time : R)
| VisibilityChange (hidden : bool)
| PageHide
| PageShow.

(** One scheduled callback of a frame: skipped if it was cancelled in the
    meantime, otherwise taken off the table and invoked. *)
Definition run_scheduled (time : R) (s : State) (h : positive) : State :=
  if in_dec Pos.eq_dec h (scheduled s)
  then tick time (cancelAnimationFrame h s)
  else s.

Definition handle (e : Event) (s : State) : State :=
  match e with
  | Frame time => fold_left (run_scheduled time) (scheduled s) s
  | VisibilityChange hidden => if hidden then stop s else start s
  | PageHide => stop s
  | PageShow => start s
  end.

(** The closure body: inert without a [.lightfield] element, otherwise
    the variables at their initial values followed by [start()].  [h0]
    is the browser's next free callback handle. *)
Definition ambient_init (h0 : positive) : option State :=
  if negb (has_lightfield c) then None
  else Some (start (mkState None 0 0 None None None [] None [] h0)).

Inductive reachable : State -> Prop :=
| reach_init h0 s : ambient_init h0 = Some s -> reachable s
| reach_step s e : reachable s -> reachable (handle e s).

(** *** Observations on states *)

(** The three write gates of [tick], one per channel, as they follow
    each other in an executed update. *)
Definition gate_x (time : R) (s : State) : State :=
  let x := drift_x (time * 0.001) in
  if negb (nearlyEqual x (lastX s) 0.06)
  then set_lastX (Some x) (setProperty LfX x s) else s.

Definition gate_y (time : R) (s : State) : State :=
  let y := drift_y (time * 0.001) in
  if negb (nearlyEqual y (lastY s) 0.06)
  then set_lastY (Some y) (setProperty LfY y s) else s.

Definition gate_r (time : R) (s : State) : State :=
  let r := drift_rotation (time * 0.001) in
  if negb (nearlyEqual r (lastR s) 0.012)
  then set_lastR (Some r) (setProperty LfR r s) else s.

(** The turbulence step of [tick]. *)
Definition turbulence_step (time : R) (s : State) : State :=
  if ENABLE_TURBULENCE c
     && (if Rgt_dec (time - lastTurb s) TURB_UPDATE_MS then true else false)
  then
    set_baseFrequency
      (Some (BASE_FREQ_X + sin (time * 0.001 * 0.22) * TURB_VARIANCE c,
             BASE_FREQ_Y + cos (time * 0.001 * 0.19) * TURB_VARIANCE c))
      (set_lastTurb time s)
  else s.

(** One channel of the state: the cached value, the value the property
    holds and the number of writes made to it. *)
Definition channel (v : CssVar) (last : State -> option R) (s : State)
  : option R * option R * nat :=
  (last s, css_value v (styleWrites s), write_count v (styleWrites s)).

(** What an executed update does to one channel: [new] is the value
    just computed, [s] and [s'] the states before and after.  With a
    last written value [l], the property is left alone when [new] is
    within [eps] of [l] and rewritten to [new] otherwise; without one
    (the cache still [NaN]) it is written. *)
Definition channel_gated (v : CssVar) (eps new : R)
           (last : State -> option R) (s s' : State) : Prop :=
  match last s with
  | Some l =>
      (Rabs (new - l) <= eps -> channel v last s' = channel v last s)
      /\ (Rabs (new - l) > eps ->
          channel v last s' =
          (Some new, Some new, S (write_count v (styleWrites s))))
  | None =>
      channel v last s' =
      (Some new, Some new, S (write_count v (styleWrites s)))
  end.

(** The cached values are the values the properties hold. *)
Definition cache_coherent (s : State) : Prop :=
  lastX s = css_value LfX (styleWrites s)
  /\ lastY s = css_value LfY (styleWrites s)
  /\ lastR s = css_value LfR (styleWrites s).

(** The loop handle and the browser's table agree: the scheduled
    callbacks are exactly the one [rafId] names, if any. *)
Definition loop_handles (s : State) : list positive :=
  match rafId s with
  | Some h => [h]
  | None => []
  end.

End Driver.

(** Reduced motion on a desktop with a light field and a turbulence
    filter. *)
Definition sample_caps : Caps := mkCaps true false false (Some 8%nat) true true.

Definition sample_running : State :=
  start (mkState None 0 0 None None None [] None [] 1).

End Ambient.

(* ===================================================================== *)
(** * Lightbox: views of a state and kinds of step *)
(* ===================================================================== *)

Module LightboxViews.

Import Lightbox.
Local Open Scope Q_scope.

(** What the page shows of the lightbox being open or closed. *)
Definition shell (s : State)
  : bool * option Elem * bool * string * string :=
  (isOpen (vars s), lastActive (vars s), lb_hidden (page s),
   lb_aria_hidden (page s), scroller_overflow (page s)).

Section Views.

Variable d : Dom.

(** The image on display is the resolved source of the current tile,
    unless that tile has no source at all. *)
Definition shows_current (s : State) : Prop :=
  getFullSrc d (index (vars s)) = EmptyString
  \/ img_src (img s) = getFullSrc d (index (vars s)).

(** [s'] has the preloads of [s] and at most two more, each a non-empty
    resolved source. *)
Definition preloads_grow (s s' : State) : Prop :=
  exists pl,
    preloaded (page s') = preloaded (page s) ++ pl
    /\ (List.length pl <= 2)%nat
    /\ Forall (fun u => u <> EmptyString /\ exists i, u = getFullSrc d i) pl.

(** A step that neither opens, closes nor navigates. *)
Definition quiet (s s' : State) : Prop :=
  shell s' = shell s
  /\ index (vars s') = index (vars s)
  /\ img_src (img s') = img_src (img s)
  /\ preloaded (page s') = preloaded (page s).

(** A step that went through [setIndex]. *)
Definition navigated (s s' : State) : Prop :=
  shell s' = shell s /\ shows_current s' /\ preloads_grow s s'.

(** A step that opened the lightbox. *)
Definition opened (s s' : State) : Prop :=
  isOpen (vars s) = false
  /\ isOpen (vars s') = true
  /\ lastActive (vars s') <> None
  /\ lb_hidden (page s') = false
  /\ lb_aria_hidden (page s') = "false"%string
  /\ scroller_overflow (page s')
     = (if has_scroller d then "hidden"%string else scroller_overflow (page s))
  /\ shows_current s' /\ preloads_grow s s'.

(** A step that closed it. *)
Definition closed (s s' : State) : Prop :=
  isOpen (vars s) = true
  /\ isOpen (vars s') = false
  /\ lastActive (vars s') = lastActive (vars s)
  /\ lb_hidden (page s') = true
  /\ lb_aria_hidden (page s') = "true"%string
  /\ scroller_overflow (page s')
     = (if has_scroller d then EmptyString else scroller_overflow (page s))
  /\ index (vars s') = index (vars s)
  /\ img_src (img s') = img_src (img s)
  /\ preloaded (page s') = preloaded (page s).

End Views.

(** The events that can open or close the lightbox. *)
Definition opens_or_closes (e : Event) : bool :=
  match e with
  | ClickGallery _ _ | ClickClose | KeyDown Escape => true
  | _ => false
  end.

End LightboxViews.

(* ===================================================================== *)
(** * Ambient driver: further observations and samples *)
(* ===================================================================== *)

Module AmbientViews.

Import Ambient.
Import Reals.
Local Open Scope R_scope.

(** A written value is within the amplitude of its channel. *)
Definition within_amplitude (c : Caps) (w : CssVar * R) : Prop :=
  match fst w with
  | LfX => Rabs (snd w) <= 2.1 * AMP_X c
  | LfY => Rabs (snd w) <= 2.2 * AMP_Y c
  | LfR => Rabs (snd w) <= 1
  end.

(** A desktop in the ultra class: no reduced motion, wide viewport, not
    iOS, eight cores, light field and turbulence filter present. *)
Definition ultra_caps : Caps := mkCaps false false false (Some 8%nat) true true.

End AmbientViews.

(* ===================================================================== *)
(** * Menu toggle controller *)
(* ===================================================================== *)

Module Menu.

Local Open Scope string_scope.

(** What the lookups find: the [data-menu] root, its toggle and panel,
    and whether the panel holds a link ([a[href]]) to focus. *)
Record Dom : Type := mkDom {
  has_root : bool;
  has_toggle : bool;
  has_panel : bool;
  has_link : bool
}.

Inductive Focus : Type := OnToggle | OnFirstLink | Elsewhere.

(** The two [let] variables ([hideTimer] is [null] or a timer handle),
    the attributes and classes the controller writes, the focus, and
    the browser's pending timers of this controller with its next free
    handle. *)
Record State : Type := mkState {
  isOpen : bool;
  hideTimer : option positive;
  data_open : string;
  aria_expanded : string;
  aria_hidden : string;
  panel_hidden : bool;
  menu_open_class : bool;
  focus : Focus;
  timers : list positive;
  nextTimer : positive
}.

Definition js_bool (b : bool) : string := if b then "true" else "false".

(** [document.documentElement.classList.toggle("menu-open", on)] *)
Definition setPerfMode (on : bool) (s : State) : State :=
  mkState (isOpen s) (hideTimer s) (data_open s) (aria_expanded s)
          (aria_hidden s) (panel_hidden s) on (focus s) (timers s)
          (nextTimer s).

Definition setState (open : bool) (s : State) : State :=
  mkState open (hideTimer s) (js_bool open) (js_bool open)
          (js_bool (negb open)) (panel_hidden s) (menu_open_class s)
          (focus s) (timers s) (nextTimer s).

Definition set_panel_hidden (h : bool) (s : State) : State :=
  mkState (isOpen s) (hideTimer s) (data_open s) (aria_expanded s)
          (aria_hidden s) h (menu_open_class s) (focus s) (timers s)
          (nextTimer s).

Definition set_hideTimer (t : option positive) (s : State) : State :=
  mkState (isOpen s) t (data_open s) (aria_expanded s)
          (aria_hidden s) (panel_hidden s) (menu_open_class s) (focus s)
          (timers s) (nextTimer s).

Definition set_focus (f : Focus) (s : State) : State :=
  mkState (isOpen s) (hideTimer s) (data_open s) (aria_expanded s)
          (aria_hidden s) (panel_hidden s) (menu_open_class s) f
          (timers s) (nextTimer s).

(** [clearTimeout(h)] *)
Definition clearTimeout (h : positive) (s : State) : State :=
  mkState (isOpen s) (hideTimer s) (data_open s) (aria_expanded s)
          (aria_hidden s) (panel_hidden s) (menu_open_class s) (focus s)
          (List.remove Pos.eq_dec h (timers s)) (nextTimer s).

(** [window.setTimeout(hide, HIDE_AFTER_CLOSE_MS)]: registers the hide
    callback under a fresh handle and returns the handle. *)
Definition setTimeout (s : State) : positive * State :=
  let h := nextTimer s in
  (h, mkState (isOpen s) (hideTimer s) (data_open s) (aria_expanded s)
              (aria_hidden s) (panel_hidden s) (menu_open_class s) (focus s)
              (timers s ++ [h]) (Pos.succ h)).

Definition HIDE_AFTER_CLOSE_MS : nat := 460.

Section Controller.

Variable d : Dom.

Definition openMenu (s : State) : State :=
  if isOpen s then s
  else
    let s := setPerfMode true s in
    let s := set_panel_hidden false s in
    let s := match hideTimer s with
             | Some h => set_hideTimer None (clearTimeout h s)
             | None => s
             end in
    let s := setState true s in
    if has_link d then set_focus OnFirstLink s else s.

Definition closeMenu (s : State) : State :=
  if negb (isOpen s) then s
  else
    let s := setState false s in
    let s := setPerfMode false s in
    let (h, s) := setTimeout s in
    let s := set_hideTimer (Some h) s in
    set_focus OnToggle s.

(** The timer callback: [if (!isOpen) panel.hidden = true]. *)
Definition hide_after_close (s : State) : State :=
  if negb (isOpen s) then set_panel_hidden true s else s.

(** [ToggleClick] is a click on the toggle; [KeyDown escape] a key press
    ([escape] tells whether the key is Escape); [DocPointerDown inside]
    a pointer-down whose target is inside the root or not;
    [PanelClick on_link] a click in the panel, on a link or not;
    [TimerFires h] the browser running the timer [h] if it is still
    pending. *)
Inductive Event : Type :=
| ToggleClick
| KeyDown (escape : bool)
| DocPointerDown (inside_root : bool)
| PanelClick (on_link : bool)
| TimerFires (h : positive).

Definition handle (e : Event) (s : State) : State :=
  match e with
  | ToggleClick => if isOpen s then closeMenu s else openMenu s
  | KeyDown escape => if escape then closeMenu s else s
  | DocPointerDown inside_root =>
      if negb (isOpen s) then s
      else if negb inside_root then closeMenu s else s
  | PanelClick on_link => if negb on_link then s else closeMenu s
  | TimerFires h =>
      if in_dec Pos.eq_dec h (timers s)
      then hide_after_close (clearTimeout h s)
      else s
  end.

(** The closure body: inert unless root, toggle and panel exist;
    otherwise [setState(false)] and [panel.hidden = true].  [cls0] and
    [f0] are the [menu-open] class and the focus the page starts with,
    [h0] the browser's next free timer handle. *)
Definition menu_init (cls0 : bool) (f0 : Focus) (h0 : positive)
  : option State :=
  if negb (has_root d) then None
  else if negb (has_toggle d) || negb (has_panel d) then None
  else
    Some (set_panel_hidden true
            (setState false
               (mkState false None EmptyString EmptyString EmptyString
                        false cls0 f0 [] h0))).

Inductive reachable : State -> Prop :=
| reach_init cls0 f0 h0 s : menu_init cls0 f0 h0 = Some s -> reachable s
| reach_step s e : reachable s -> reachable (handle e s).

(** The hide timers still pending are at most the one [hideTimer]
    names. *)
Definition timers_tracked (s : State) : Prop :=
  timers s = [] \/ exists h, timers s = [h] /\ hideTimer s = Some h.

(** The coupling between the flag, the attributes, the panel and the
    timers. *)
Definition coupled (s : State) : Prop :=
  (data_open s = js_bool (isOpen s)
   /\ aria_expanded s = js_bool (isOpen s)
   /\ aria_hidden s = js_bool (negb (isOpen s)))
  /\ (isOpen s = true ->
      panel_hidden s = false /\ menu_open_class s = true /\ timers s = [])
  /\ timers_tracked s
  /\ (isOpen s = false -> panel_hidden s = true \/ timers s <> []).

End Controller.

Definition sample_dom : Dom := mkDom true true true true.

Definition sample_closed : State :=
  set_panel_hidden true
    (setState false
       (mkState false None EmptyString EmptyString EmptyString
                false false Elsewhere [] 1)).

(** Opened, closed and opened again before the hide timer fired. *)
Definition run_three : State :=
  handle sample_dom ToggleClick
    (handle sample_dom ToggleClick
       (handle sample_dom ToggleClick sample_closed)).

End Menu.

(* ===================================================================== *)
(** * Translation toggles *)
(* ===================================================================== *)

(** The tagline button: Spanish by default, [aria-pressed] when
    English. *)
Module Tagline.

Local Open Scope string_scope.

(** [btn.dataset.lang] ([None] when the attribute is absent),
    [aria-pressed], and the [hidden] flags of the two spans. *)
Record State : Type := mkState {
  lang : option string;
  aria_pressed : string;
  es_hidden : bool;
  en_hidden : bool
}.

Definition setLang (l : string) : State :=
  let isEnglish := String.eqb l "en" in
  mkState (Some l) (if isEnglish then "true" else "false")
          isEnglish (negb isEnglish).

(** [btn.dataset.lang || "es"] *)
Definition initial_lang (l0 : option string) : string :=
  match l0 with
  | Some l => if String.eqb l EmptyString then "es" else l
  | None => "es"
  end.

(** The closure body: inert without the button or either span. *)
Definition tagline_init (has_btn has_es has_en : bool) (l0 : option string)
  : option State :=
  if negb has_btn then None
  else if negb has_es || negb has_en then None
  else Some (setLang (initial_lang l0)).

(** [dataset.lang === "es"]: [undefined] is not equal to a string. *)
Definition lang_is (s : State) (l : string) : bool :=
  match lang s with
  | Some x => String.eqb x l
  | None => false
  end.

Definition click (s : State) : State :=
  let next := if lang_is s "es" then "en" else "es" in
  setLang next.

Definition clicks (n : nat) (s : State) : State := Nat.iter n click s.

End Tagline.

(** The about-lead button: English by default, [aria-pressed] when
    Spanish. *)
Module AboutLead.

Local Open Scope string_scope.

Record State : Type := mkState {
  lang : option string;
  aria_pressed : string;
  en_hidden : bool;
  es_hidden : bool
}.

Definition setLang (l : string) : State :=
  let isSpanish := String.eqb l "es" in
  mkState (Some l) (if isSpanish then "true" else "false")
          isSpanish (negb isSpanish).

(** [btn.dataset.lang || "en"] *)
Definition initial_lang (l0 : option string) : string :=
  match l0 with
  | Some l => if String.eqb l EmptyString then "en" else l
  | None => "en"
  end.

Definition about_lead_init (has_btn has_en has_es : bool) (l0 : option string)
  : option State :=
  if negb has_btn then None
  else if negb has_en || negb has_es then None
  else Some (setLang (initial_lang l0)).

Definition lang_is (s : State) (l : string) : bool :=
  match lang s with
  | Some x => String.eqb x l
  | None => false
  end.

Definition click (s : State) : State :=
  let next := if lang_is s "en" then "es" else "en" in
  setLang next.

Definition clicks (n : nat) (s : State) : State := Nat.iter n click s.

End AboutLead.

(* ===================================================================== *)
(** * Properties of the lightbox *)
(* ===================================================================== *)

Module LightboxFacts.

Import Lightbox.
Import Lqa.
Local Open Scope Q_scope.

(** ** Comparisons *)

Lemma gtb_true_iff a b : gtb a b = true <-> b < a.
Proof.
  unfold gtb. rewrite negb_true_iff.
  destruct (Qle_bool a b) eqn:E.
  - apply Qle_bool_iff in E. split; [discriminate | intro H; lra].
  - split; [intros _ | reflexivity].
    destruct (Qlt_le_dec b a) as [H | H]; [exact H |].
    apply Qle_bool_iff in H. congruence.
Qed.

Lemma ltb_true_iff a b : ltb a b = true <-> a < b.
Proof. unfold ltb. apply (gtb_true_iff b a). Qed.

Lemma Math_max_ge_l a b : a <= Math_max a b.
Proof.
  unfold Math_max. destruct (Qle_bool a b) eqn:E.
  - now apply Qle_bool_iff.
  - lra.
Qed.

Lemma Math_max_narrow w : w < 320 -> Math_max 320 w = 320.
Proof.
  intro H. unfold Math_max. destruct (Qle_bool 320 w) eqn:E.
  - apply Qle_bool_iff in E. lra.
  - reflexivity.
Qed.

Section Facts.

Variable d : Dom.

(** ** Frame lemmas for [setIndex] *)

Lemma preload_vars src s : vars (preload src s) = vars s.
Proof. unfold preload. now destruct (String.eqb src EmptyString). Qed.

Lemma preload_img src s : img (preload src s) = img s.
Proof. unfold preload. now destruct (String.eqb src EmptyString). Qed.

Lemma preload_rafQueue src s :
  rafQueue (page (preload src s)) = rafQueue (page s).
Proof. unfold preload. now destruct (String.eqb src EmptyString). Qed.

Lemma setIndex_vars x s :
  vars (setIndex d x s) = set_index (js_rem (js_add x (N d)) (N d)) (vars s).
Proof.
  unfold setIndex. destruct (String.eqb _ _); [reflexivity |].
  now rewrite !preload_vars.
Qed.

Lemma setIndex_listeners x s :
  img_listeners (img (setIndex d x s)) = img_listeners (img s).
Proof.
  unfold setIndex. destruct (String.eqb _ _); [reflexivity |].
  now rewrite !preload_img.
Qed.

Lemma setIndex_rafQueue x s :
  rafQueue (page (setIndex d x s)) = rafQueue (page s).
Proof.
  unfold setIndex. destruct (String.eqb _ _); [reflexivity |].
  now rewrite !preload_rafQueue.
Qed.

Lemma setIndex_in_flight x s : in_flight (setIndex d x s) = in_flight s.
Proof.
  unfold in_flight. now rewrite setIndex_listeners, setIndex_rafQueue.
Qed.

(** Normalisation lands in range whenever the argument is at least
    [-N]. *)
Lemma normalise_in_range z :
  (1 <= N d)%Z -> (- N d <= z)%Z ->
  js_rem (js_add (Int z) (N d)) (N d) = Int ((z + N d) mod N d)
  /\ (0 <= (z + N d) mod N d < N d)%Z.
Proof.
  intros HN Hz. simpl.
  destruct (Z.eqb_spec (N d) 0) as [E | _]; [lia |].
  rewrite Z.rem_mod_nonneg by lia.
  split; [reflexivity | apply Z.mod_pos_bound; lia].
Qed.

(** ** The flags, the frame queue and the listeners stay coupled *)

Lemma anim_cbs_app q1 q2 : anim_cbs (q1 ++ q2) = anim_cbs q1 ++ anim_cbs q2.
Proof. unfold anim_cbs. apply flat_map_app. Qed.

Lemma setIndex_consistent z s :
  (1 <= N d)%Z -> (- N d <= z)%Z ->
  consistent d s -> consistent d (setIndex d (Int z) s).
Proof.
  intros HN Hz (_ & Hp & Hf).
  destruct (normalise_in_range z HN Hz) as [E R].
  unfold consistent, index_in_range.
  rewrite setIndex_in_flight, setIndex_vars, E. cbn.
  split; [eauto | split; assumption].
Qed.

Lemma prev_consistent s :
  (1 <= N d)%Z -> consistent d s -> consistent d (prev d s).
Proof.
  intros HN H. unfold prev.
  pose proof H as ((i & Ei & Ri) & _).
  rewrite Ei. cbn [js_add].
  apply setIndex_consistent; [assumption | lia | exact H].
Qed.

Lemma next_consistent s :
  (1 <= N d)%Z -> consistent d s -> consistent d (next d s).
Proof.
  intros HN H. unfold next.
  pose proof H as ((i & Ei & Ri) & _).
  rewrite Ei. cbn [js_add].
  apply setIndex_consistent; [assumption | lia | exact H].
Qed.

Lemma consistent_ext s s' :
  index (vars s') = index (vars s) ->
  pointerDown (vars s') = pointerDown (vars s) ->
  isAnimating (vars s') = isAnimating (vars s) ->
  in_flight s' = in_flight s ->
  consistent d s -> consistent d s'.
Proof.
  unfold consistent, index_in_range.
  intros -> -> -> ->. exact (fun H => H).
Qed.

Ltac same_control s := apply (consistent_ext s); [reflexivity .. | ].

Lemma open_consistent i t s :
  (1 <= N d)%Z -> (0 <= i)%Z -> consistent d s -> consistent d (open d i t s).
Proof.
  intros HN Hi H. unfold open.
  destruct (isOpen (vars s)); [assumption |].
  assert (K : forall s1, consistent d s1 ->
              consistent d (if has_closeBtn d
                            then upd_page (set_focused CloseBtn) s1 else s1)).
  { intros s1 H1. destruct (has_closeBtn d); [same_control s1 |]; exact H1. }
  apply K. apply setIndex_consistent; [assumption | lia |].
  destruct (has_scroller d); same_control s; exact H.
Qed.

Lemma close_consistent s : consistent d s -> consistent d (close d s).
Proof.
  intro H. unfold close.
  destruct (isOpen (vars s)); [| assumption]. cbn [negb].
  destruct (has_scroller d); cbn [lastActive vars upd_vars upd_page upd_img
    resetVisual set_isOpen];
    destruct (lastActive (vars s)); same_control s; exact H.
Qed.

Lemma on_pointerdown_consistent id x now s :
  consistent d s -> consistent d (on_pointerdown id x now s).
Proof.
  intros (Hi & Hp & Hf). unfold on_pointerdown.
  destruct (negb (isOpen (vars s)) || isAnimating (vars s)) eqn:E.
  - repeat split; assumption.
  - apply orb_false_iff in E. destruct E as [_ E].
    unfold consistent, index_in_range, in_flight in *. cbn.
    rewrite E in *. repeat split; auto.
Qed.

Lemma on_pointermove_consistent id x w s :
  consistent d s -> consistent d (on_pointermove id x w s).
Proof.
  intro H. unfold on_pointermove.
  destruct (_ || _); [assumption |]. same_control s. exact H.
Qed.

Lemma animateTo_consistent dx op cb s :
  pointerDown (vars s) = false ->
  consistent d s -> consistent d (animateTo dx op cb s).
Proof.
  intros Hd (Hi & Hp & Hf). unfold animateTo.
  destruct (isAnimating (vars s)) eqn:E.
  - unfold consistent. rewrite E. repeat split; assumption.
  - unfold consistent, index_in_range, in_flight in *. cbn.
    rewrite anim_cbs_app, !length_app in *. cbn. rewrite Hd.
    repeat split; [exact Hi | discriminate | lia].
Qed.

Lemma finishSwipe_consistent now w s :
  consistent d s -> consistent d (finishSwipe now w s).
Proof.
  intro H. unfold finishSwipe.
  destruct (pointerDown (vars s)) eqn:E; [| assumption]. cbn [negb].
  assert (H0 : consistent d (upd_vars (set_pointerDown false) s)).
  { destruct H as (Hi & Hp & Hf). specialize (Hp E).
    unfold consistent, index_in_range, in_flight in *. cbn.
    rewrite Hp in *. repeat split; auto. }
  cbv zeta. destruct (negb _); apply animateTo_consistent;
    solve [reflexivity | exact H0].
Qed.

Lemma fold_run_raf q : forall s,
  let s' := fold_left (fun s t => run_raf t s) q s in
  vars s' = vars s
  /\ page s' = page s
  /\ img_listeners (img s') = img_listeners (img s) ++ anim_cbs q.
Proof.
  induction q as [| t q IH]; intro s; cbn [fold_left].
  - cbn. now rewrite app_nil_r.
  - destruct (IH (run_raf t s)) as (Ev & Ep & El).
    cbv zeta. rewrite Ev, Ep, El.
    destruct t; cbn; [rewrite <- app_assoc |]; auto.
Qed.

Lemma animation_frame_consistent s :
  consistent d s -> consistent d (handle d AnimationFrame s).
Proof.
  intros (Hi & Hp & Hf). cbn [handle].
  destruct (fold_run_raf (rafQueue (page s)) (upd_page (set_rafQueue []) s))
    as (Ev & Ep & El).
  unfold consistent, index_in_range, in_flight in *.
  rewrite Ev, Ep, El. cbn.
  rewrite length_app in *.
  repeat split; [exact Hi | exact Hp | lia].
Qed.

Lemma done_consistent cb s :
  (1 <= N d)%Z -> index_in_range d s -> in_flight s = [] ->
  consistent d (done d cb s).
Proof.
  intros HN Hi Hf.
  assert (H0 : consistent d (upd_vars (set_isAnimating false) s)).
  { unfold consistent, index_in_range, in_flight in *. cbn.
    rewrite Hf. repeat split; auto. }
  unfold done, run_callback.
  destruct cb as [[| dir w] |]; [| | exact H0].
  - same_control (upd_vars (set_isAnimating false) s). exact H0.
  - set (s1 := if (dir =? 1)%Z then next d _ else prev d _).
    assert (H1 : consistent d s1).
    { subst s1. destruct (dir =? 1)%Z;
        [apply next_consistent | apply prev_consistent]; assumption. }
    clearbody s1.
    destruct H1 as (H1i & H1p & H1f).
    unfold consistent, index_in_range, in_flight in *. cbn.
    rewrite anim_cbs_app. cbn. rewrite app_nil_r.
    repeat split; assumption.
Qed.

Lemma transition_end_consistent s :
  (1 <= N d)%Z -> consistent d s -> consistent d (handle d TransitionEnd s).
Proof.
  intros HN H. pose proof H as (Hi & Hp & Hf). cbn [handle].
  unfold in_flight in Hf. rewrite length_app in Hf.
  destruct (img_listeners (img s)) as [| cb [| cb' ls]] eqn:El.
  - cbn. apply (consistent_ext s); try reflexivity; [| exact H].
    unfold in_flight. cbn. now rewrite El.
  - cbn [fold_left]. apply done_consistent; [assumption | exact Hi |].
    unfold in_flight. cbn.
    destruct (anim_cbs (rafQueue (page s))); [reflexivity |].
    cbn in Hf. destruct (isAnimating (vars s)); lia.
  - cbn in Hf. destruct (isAnimating (vars s)); lia.
Qed.

Lemma handle_consistent e s :
  (1 <= N d)%Z -> consistent d s -> consistent d (handle d e s).
Proof.
  intros HN H. destruct e as [btn im | | | | k | | | | | |].
  - cbn [handle]. destruct (Z.geb_spec (indexOf d im) 0); [| assumption].
    apply open_consistent; solve [assumption | lia].
  - cbn [handle]. destruct (has_closeBtn d); [apply close_consistent |]; easy.
  - cbn [handle]. destruct (has_btnPrev d); [apply prev_consistent |]; easy.
  - cbn [handle]. destruct (has_btnNext d); [apply next_consistent |]; easy.
  - cbn [handle]. unfold on_keydown.
    destruct (isOpen (vars s)); [| assumption]. cbn [negb].
    destruct k; auto using close_consistent, prev_consistent, next_consistent.
  - apply on_pointerdown_consistent, H.
  - apply on_pointermove_consistent, H.
  - apply finishSwipe_consistent, H.
  - apply finishSwipe_consistent, H.
  - apply animation_frame_consistent, H.
  - apply transition_end_consistent; assumption.
Qed.

(** The component only runs over a non-empty gallery. *)
Lemma init_nonempty i0 p0 s :
  lightbox_init d i0 p0 = Some s ->
  (1 <= N d)%Z /\ s = mkState initial_vars (set_listeners [] i0)
                               (set_rafQueue [] p0).
Proof.
  unfold lightbox_init, N.
  destruct (tiles d) as [| t ts]; cbn [List.length Nat.eqb orb]; [discriminate |].
  destruct (negb (has_lb d)); [discriminate |]. cbn [orb].
  destruct (_ || _); [discriminate |].
  intros [= <-]. split; [lia | reflexivity].
Qed.

Lemma reachable_nonempty s : reachable d s -> (1 <= N d)%Z.
Proof.
  induction 1 as [i0 p0 s E | s e _ IH]; [| exact IH].
  now destruct (init_nonempty _ _ _ E).
Qed.

Lemma reachable_consistent s : reachable d s -> consistent d s.
Proof.
  intro R. pose proof (reachable_nonempty s R) as HN.
  induction R as [i0 p0 s E | s e R IH].
  - destruct (init_nonempty _ _ _ E) as [_ ->].
    unfold consistent, index_in_range, in_flight. cbn.
    split; [exists 0%Z; split; [reflexivity | lia] |].
    split; [discriminate | reflexivity].
  - apply handle_consistent; auto.
Qed.

(** ** What [finishSwipe] decides and what the animation then does *)

Lemma swipe_decision dX startT now w :
  gtb (Math_abs dX) (Math_max 320 w * 0.18)
  || gtb (Math_abs (dX / Math_max 1 (now - startT))) 0.65 = true
  <-> swipe_qualifies dX startT now w.
Proof.
  unfold swipe_qualifies, Math_abs.
  rewrite orb_true_iff, !gtb_true_iff. reflexivity.
Qed.

Lemma finishSwipe_commit now w s :
  pointerDown (vars s) = true -> isAnimating (vars s) = false ->
  swipe_qualifies (deltaX (vars s)) (startT (vars s)) now w ->
  finishSwipe now w s =
  requestAnimationFrame
    (RafAnimate (if ltb (deltaX (vars s)) 0
                 then - Math_max 320 w else Math_max 320 w)
                0.9
                (Some (CbCommit (if ltb (deltaX (vars s)) 0 then 1 else -1)
                                (Math_max 320 w))))
    (drag_released s).
Proof.
  intros Hd Ha Hq. apply swipe_decision in Hq.
  unfold finishSwipe. rewrite Hd. cbn [negb]. cbv zeta.
  cbn [vars upd_vars set_pointerDown deltaX startT]. rewrite Hq. cbn [negb].
  unfold animateTo. cbn [vars upd_vars set_pointerDown isAnimating].
  rewrite Ha. destruct (ltb (deltaX (vars s)) 0); reflexivity.
Qed.

Lemma finishSwipe_cancel now w s :
  pointerDown (vars s) = true -> isAnimating (vars s) = false ->
  ~ swipe_qualifies (deltaX (vars s)) (startT (vars s)) now w ->
  finishSwipe now w s =
  requestAnimationFrame (RafAnimate 0 1 (Some CbReset)) (drag_released s).
Proof.
  intros Hd Ha Hq. rewrite <- swipe_decision in Hq.
  apply not_true_is_false in Hq.
  unfold finishSwipe. rewrite Hd. cbn [negb]. cbv zeta.
  cbn [vars upd_vars set_pointerDown deltaX startT]. rewrite Hq. cbn [negb].
  unfold animateTo. cbn [vars upd_vars set_pointerDown isAnimating].
  rewrite Ha. reflexivity.
Qed.

Lemma ends_drag_handle e now w s :
  ends_drag e now w -> handle d e s = finishSwipe now w s.
Proof. intros [id [-> | ->]]; reflexivity. Qed.

(** With nothing else in flight, the frame after [animateTo] applies the
    target style and installs the [done] listener; the transition's end
    then runs [done]. *)
Lemma animation_plays dx op cb b :
  in_flight b = [] ->
  let s2 := handle d AnimationFrame
              (requestAnimationFrame (RafAnimate dx op cb) b) in
  vars s2 = vars b
  /\ img_transform (img s2) = Some dx
  /\ img_opacity (img s2) = Some op
  /\ img_listeners (img s2) = [cb]
  /\ rafQueue (page s2) = []
  /\ handle d TransitionEnd s2 = done d cb (upd_img (set_listeners []) s2).
Proof.
  intros Hf s2.
  unfold in_flight in Hf. apply app_eq_nil in Hf. destruct Hf as [Hq Hl].
  assert (E : s2 = run_raf (RafAnimate dx op cb)
                (fold_left (fun s t => run_raf t s) (rafQueue (page b))
                   (upd_page (set_rafQueue []) b))).
  { subst s2. cbn [handle]. cbn [requestAnimationFrame upd_page page rafQueue
      set_rafQueue]. now rewrite fold_left_app. }
  destruct (fold_run_raf (rafQueue (page b)) (upd_page (set_rafQueue []) b))
    as (Ev & Ep & El).
  cbv zeta in Ev, Ep, El. cbn [upd_page img vars page] in Ev, Ep, El.
  rewrite Hq, Hl in El. cbn [anim_cbs flat_map app] in El.
  assert (L : img_listeners (img s2) = [cb]).
  { rewrite E. cbn. now rewrite El. }
  repeat split; try (rewrite E; cbn; congruence).
  - exact L.
  - rewrite E. cbn. now rewrite Ep.
  - cbn [handle]. now rewrite L.
Qed.

Lemma done_commit_index dir w s :
  index (vars (done d (Some (CbCommit dir w)) s)) =
  js_rem (js_add (js_add (index (vars s)) (if (dir =? 1)%Z then 1 else -1))
                 (N d)) (N d).
Proof.
  unfold done, run_callback. cbn [requestAnimationFrame upd_page upd_img vars].
  destruct (dir =? 1)%Z; unfold next, prev; now rewrite setIndex_vars.
Qed.

Lemma done_commit_flags dir w s :
  isAnimating (vars (done d (Some (CbCommit dir w)) s)) = false
  /\ img_dragging (img (done d (Some (CbCommit dir w)) s)) = true
  /\ img_opacity (img (done d (Some (CbCommit dir w)) s)) = Some 0.9
  /\ img_transform (img (done d (Some (CbCommit dir w)) s)) =
     Some (if (dir =? 1)%Z then w else - w).
Proof.
  unfold done, run_callback. cbn [requestAnimationFrame upd_page upd_img vars img].
  destruct (dir =? 1)%Z; unfold next, prev; rewrite setIndex_vars;
    repeat split; reflexivity.
Qed.

Lemma step_index i k :
  (1 <= N d)%Z -> (0 <= i < N d)%Z -> (k = 1 \/ k = -1)%Z ->
  js_rem (js_add (js_add (Int i) k) (N d)) (N d) = Int ((i + k) mod N d).
Proof.
  intros HN Hi Hk. cbn [js_add].
  destruct (normalise_in_range (i + k) HN ltac:(lia)) as [E _].
  cbn [js_add] in E. rewrite E. f_equal.
  rewrite <- (Z_mod_plus_full (i + k) 1 (N d)). f_equal. lia.
Qed.

Lemma in_flight_after_animate dx op cb b :
  in_flight b = [] ->
  in_flight (requestAnimationFrame (RafAnimate dx op cb) b) = [cb].
Proof.
  unfold in_flight. intro H. apply app_eq_nil in H. destruct H as [Hq Hl].
  cbn. now rewrite anim_cbs_app, Hq, Hl.
Qed.

(** A drag in progress has no animation in flight. *)
Lemma dragging_idle s :
  reachable d s -> pointerDown (vars s) = true ->
  isAnimating (vars s) = false /\ in_flight (drag_released s) = [].
Proof.
  intros R Hd. destruct (reachable_consistent s R) as (_ & Hp & Hf).
  specialize (Hp Hd). rewrite Hp in Hf.
  split; [exact Hp |]. change (in_flight (drag_released s)) with (in_flight s).
  now apply length_zero_iff_nil.
Qed.

Lemma commit_pending_iff now w s :
  reachable d s -> pointerDown (vars s) = true ->
  commit_pending (finishSwipe now w s)
  <-> swipe_qualifies (deltaX (vars s)) (startT (vars s)) now w.
Proof.
  intros R Hd. destruct (dragging_idle s R Hd) as [Ha Hf].
  destruct (gtb (Math_abs (deltaX (vars s))) (Math_max 320 w * 0.18)
            || gtb (Math_abs (deltaX (vars s)
                              / Math_max 1 (now - startT (vars s)))) 0.65)
    eqn:E.
  - apply swipe_decision in E. split; [intros _; exact E | intros _].
    rewrite (finishSwipe_commit now w s Hd Ha E). unfold commit_pending.
    rewrite (in_flight_after_animate _ _ _ _ Hf).
    eexists _, _. left. reflexivity.
  - assert (Q : ~ swipe_qualifies (deltaX (vars s)) (startT (vars s)) now w).
    { rewrite <- swipe_decision, E. discriminate. }
    split; [| intro; contradiction].
    rewrite (finishSwipe_cancel now w s Hd Ha Q). unfold commit_pending.
    rewrite (in_flight_after_animate _ _ _ _ Hf).
    intros (dir & w' & [K | []]). discriminate.
Qed.

(** A committed swipe, played to the end of its slide-out transition,
    has moved the index one step in the direction of the swipe. *)
Lemma commit_plays now w s i :
  reachable d s -> pointerDown (vars s) = true -> index (vars s) = Int i ->
  swipe_qualifies (deltaX (vars s)) (startT (vars s)) now w ->
  index (vars (handle d TransitionEnd
                 (handle d AnimationFrame (finishSwipe now w s)))) =
  Int ((i + (if ltb (deltaX (vars s)) 0 then 1 else -1)) mod N d).
Proof.
  intros R Hd Hi Hq. destruct (dragging_idle s R Hd) as [Ha Hf].
  pose proof (reachable_nonempty s R) as HN.
  destruct (reachable_consistent s R) as ((i' & Ei & Ri) & _).
  assert (i' = i) by congruence. subst i'.
  rewrite (finishSwipe_commit now w s Hd Ha Hq).
  match goal with
  | |- context [requestAnimationFrame (RafAnimate ?dx ?op ?cb) ?b] =>
      destruct (animation_plays dx op cb b Hf) as (Ev & _ & _ & _ & _ & ->)
  end.
  rewrite done_commit_index.
  cbn [vars upd_img]. rewrite Ev. cbn [drag_released vars upd_img upd_vars
    set_isAnimating set_pointerDown index]. rewrite Hi.
  destruct (ltb (deltaX (vars s)) 0); cbn [Z.eqb Pos.eqb];
    apply step_index; auto.
Qed.

(** A cancelled swipe animates back to offset 0 and opacity 1, then
    clears the inline style; the index is untouched. *)
Lemma cancel_plays now w s :
  reachable d s -> pointerDown (vars s) = true ->
  ~ swipe_qualifies (deltaX (vars s)) (startT (vars s)) now w ->
  let s1 := finishSwipe now w s in
  let s2 := handle d AnimationFrame s1 in
  let s3 := handle d TransitionEnd s2 in
  cancel_pending s1
  /\ isAnimating (vars s1) = true
  /\ img_dragging (img s1) = false
  /\ img_transform (img s2) = Some 0 /\ img_opacity (img s2) = Some 1
  /\ img_transform (img s3) = None /\ img_opacity (img s3) = None
  /\ index (vars s3) = index (vars s) /\ isAnimating (vars s3) = false.
Proof.
  intros R Hd Hq. destruct (dragging_idle s R Hd) as [Ha Hf].
  cbv zeta. rewrite (finishSwipe_cancel now w s Hd Ha Hq).
  destruct (animation_plays 0 1 (Some CbReset) _ Hf)
    as (Ev & Et & Eo & _ & _ & ->).
  split; [unfold cancel_pending; cbn; apply in_or_app; right; now left |].
  split; [reflexivity |]. split; [reflexivity |].
  split; [exact Et |]. split; [exact Eo |].
  unfold done, run_callback, resetVisual.
  cbn [upd_img upd_vars vars img img_transform img_opacity set_opacity
       set_transform set_isAnimating index isAnimating].
  rewrite Ev. repeat split; reflexivity.
Qed.

Lemma reachable_run es : forall s, reachable d s -> reachable d (run d es s).
Proof.
  induction es as [| e es IH]; intros s R; [exact R |].
  apply (IH (handle d e s)). now apply reach_step.
Qed.

End Facts.

Lemma sample_start_reachable : reachable sample_dom sample_start.
Proof. apply (reach_init sample_dom sample_img sample_page). reflexivity. Qed.

Lemma sample_drag_reachable x w : reachable sample_dom (sample_drag x w).
Proof. apply reachable_run, sample_start_reachable. Qed.

(** ** The swipe thresholds *)

(** C1, as amended: a finished drag (pointer-up or pointer-cancel)
    commits exactly when |dX| exceeds 0.18 times the effective width
    max(320, W), or |dX / max(1, elapsed)| exceeds 0.65.  A committed
    swipe navigates one step once its slide-out transition ends; any
    other drag is cancelled: it animates back to offset 0 and opacity 1,
    then clears the inline style, and the index stays as it was. *)
Theorem C1_swipe_commits_iff_threshold d s e now w :
  reachable d s -> pointerDown (vars s) = true -> ends_drag e now w ->
  let dX := deltaX (vars s) in
  let q := swipe_qualifies dX (startT (vars s)) now w in
  let s1 := handle d e s in
  let s2 := handle d AnimationFrame s1 in
  let s3 := handle d TransitionEnd s2 in
  (commit_pending s1 <-> q)
  /\ (q -> exists i, index (vars s) = Int i
                    /\ index (vars s3) =
                       Int ((i + (if ltb dX 0 then 1 else -1)) mod N d))
  /\ (~ q -> cancel_pending s1
             /\ img_transform (img s2) = Some 0
             /\ img_opacity (img s2) = Some 1
             /\ img_transform (img s3) = None
             /\ img_opacity (img s3) = None
             /\ index (vars s3) = index (vars s)
             /\ isAnimating (vars s3) = false).
Proof.
  intros R Hd He. cbv zeta. rewrite (ends_drag_handle d e now w s He).
  split; [apply (commit_pending_iff d); assumption |]. split.
  - intro Hq.
    destruct (reachable_consistent d s R) as ((i & Ei & _) & _).
    exists i. split; [exact Ei |]. now apply commit_plays.
  - intro Hq.
    destruct (cancel_plays d now w s R Hd Hq) as (A & _ & _ & B). auto.
Qed.

(** On a 300 px viewport a 55 px drag is short of 0.18 * 320: the
    snap-back animation is queued. *)
Lemma C1_swipe_commits_iff_threshold_witness :
  let s := sample_drag 445 300 in
  pointerDown (vars s) = true
  /\ ~ swipe_qualifies (deltaX (vars s)) (startT (vars s)) 1000 300
  /\ cancel_pending (handle sample_dom (PointerUp 1 1000 300) s).
Proof.
  intro s.
  assert (Hd : pointerDown (vars s) = true) by reflexivity.
  assert (Hq : ~ swipe_qualifies (deltaX (vars s)) (startT (vars s)) 1000 300).
  { rewrite <- swipe_decision. vm_compute. discriminate. }
  split; [exact Hd |]. split; [exact Hq |].
  pose proof (C1_swipe_commits_iff_threshold sample_dom s
                (PointerUp 1 1000 300) 1000 300
                (sample_drag_reachable 445 300) Hd
                (ex_intro _ 1%Z (or_introl eq_refl))) as (_ & _ & K).
  exact (proj1 (K Hq)).
Defined.

(** C1 as stated fails on the code.  (a) Viewport 300 px wide, drag of
    -55 px released after 1000 ms: 55 > 0.18 * 300, yet the swipe is
    cancelled.  (b) Viewport 1000 px wide, drag of 0.5 px released after
    0.5 ms: the raw speed is 1 px/ms > 0.65, yet the swipe is
    cancelled. *)
Lemma C1_raw_threshold_counterexample :
  (let s := sample_drag 445 300 in
   let s1 := handle sample_dom (PointerUp 1 1000 300) s in
   reachable sample_dom s /\ isOpen (vars s) = true
   /\ pointerDown (vars s) = true
   /\ swipe_qualifies_raw (deltaX (vars s)) (startT (vars s)) 1000 300
   /\ ~ commit_pending s1 /\ cancel_pending s1)
  /\
  (let s := sample_drag 500.5 1000 in
   let s1 := handle sample_dom (PointerUp 1 0.5 1000) s in
   reachable sample_dom s /\ isOpen (vars s) = true
   /\ pointerDown (vars s) = true
   /\ swipe_qualifies_raw (deltaX (vars s)) (startT (vars s)) 0.5 1000
   /\ ~ commit_pending s1 /\ cancel_pending s1).
Proof.
  split; cbv zeta.
  - split; [apply sample_drag_reachable |].
    split; [reflexivity |]. split; [reflexivity |].
    split; [left; vm_compute; reflexivity |].
    split.
    + change (handle sample_dom (PointerUp 1 1000 300) (sample_drag 445 300))
        with (finishSwipe 1000 300 (sample_drag 445 300)).
      rewrite (commit_pending_iff sample_dom), <- swipe_decision;
        [vm_compute; discriminate | apply sample_drag_reachable | reflexivity].
    + vm_compute. left. reflexivity.
  - split; [apply sample_drag_reachable |].
    split; [reflexivity |]. split; [reflexivity |].
    split; [right; vm_compute; reflexivity |].
    split.
    + change (handle sample_dom (PointerUp 1 0.5 1000) (sample_drag 500.5 1000))
        with (finishSwipe 0.5 1000 (sample_drag 500.5 1000)).
      rewrite (commit_pending_iff sample_dom), <- swipe_decision;
        [vm_compute; discriminate | apply sample_drag_reachable | reflexivity].
    + vm_compute. left. reflexivity.
Qed.

(** ** Gating by [isAnimating] *)

(** C2, as amended: while [isAnimating] is true a pointer-down starts no
    drag session (the state is left as it is); ArrowLeft and ArrowRight
    (lightbox open) and the prev/next buttons are not gated: they run
    [prev] and [next] as at any other time, moving the index one step
    round the gallery. *)
Theorem C2_animation_gates_pointerdown_only d s :
  reachable d s -> isAnimating (vars s) = true ->
  (forall id x now, handle d (PointerDown id x now) s = s)
  /\ (isOpen (vars s) = true ->
      handle d (KeyDown ArrowLeft) s = prev d s
      /\ handle d (KeyDown ArrowRight) s = next d s)
  /\ (has_btnPrev d = true -> handle d ClickPrev s = prev d s)
  /\ (has_btnNext d = true -> handle d ClickNext s = next d s)
  /\ exists i, index (vars s) = Int i
               /\ index (vars (prev d s)) = Int ((i - 1) mod N d)
               /\ index (vars (next d s)) = Int ((i + 1) mod N d).
Proof.
  intros R Ha. split; [| split; [| split; [| split]]].
  - intros id x now. cbn [handle]. unfold on_pointerdown.
    rewrite Ha, orb_true_r. reflexivity.
  - intro Ho. cbn [handle]. unfold on_keydown. rewrite Ho. now split.
  - intro Hb. cbn [handle]. now rewrite Hb.
  - intro Hb. cbn [handle]. now rewrite Hb.
  - pose proof (reachable_nonempty d s R) as HN.
    destruct (reachable_consistent d s R) as ((i & Ei & Ri) & _).
    exists i. split; [exact Ei |].
    unfold prev, next. rewrite !setIndex_vars, Ei. cbn [set_index index].
    split; apply step_index; auto.
Qed.

Lemma sample_animating_reachable : reachable sample_dom sample_animating.
Proof. apply reachable_run, sample_start_reachable. Qed.

Lemma C2_animation_gates_pointerdown_only_witness :
  isAnimating (vars sample_animating) = true
  /\ handle sample_dom (PointerDown 2 10 1200) sample_animating
     = sample_animating
  /\ handle sample_dom ClickNext sample_animating
     = next sample_dom sample_animating.
Proof.
  assert (Ha : isAnimating (vars sample_animating) = true)
    by (vm_compute; reflexivity).
  pose proof (C2_animation_gates_pointerdown_only sample_dom sample_animating
                sample_animating_reachable Ha) as (K1 & _ & _ & K4 & _).
  split; [exact Ha |]. split; [apply K1 | apply K4; reflexivity].
Defined.

(** C2 as stated fails on the code: with the snap-back animation of a
    tap still in flight, ArrowRight moves the index from 0 to 1 and the
    prev button moves it from 0 to 2. *)
Lemma C2_navigation_during_animation_counterexample :
  let s := sample_animating in
  reachable sample_dom s
  /\ isAnimating (vars s) = true /\ isOpen (vars s) = true
  /\ index (vars s) = Int 0
  /\ navigation (KeyDown ArrowRight) /\ navigation ClickPrev
  /\ index (vars (handle sample_dom (KeyDown ArrowRight) s)) = Int 1
  /\ index (vars (handle sample_dom ClickPrev s)) = Int 2
  /\ handle sample_dom (KeyDown ArrowRight) s <> s.
Proof.
  cbv zeta. split; [apply sample_animating_reachable |].
  repeat (split; [vm_compute; reflexivity |]).
  split; [right; left; reflexivity |].
  split; [right; right; left; reflexivity |].
  repeat (split; [vm_compute; reflexivity |]).
  intro H. apply (f_equal (fun s => index (vars s))) in H.
  vm_compute in H. discriminate.
Qed.

(** ** Pointer identity *)

(** A move of a pointer other than the one driving the drag changes
    nothing. *)
Lemma foreign_pointermove_ignored d s a id x w :
  activePointerId (vars s) = Some a -> id <> a ->
  handle d (PointerMove id x w) s = s.
Proof.
  intros Ea Hne. cbn [handle]. unfold on_pointermove. rewrite Ea.
  cbn [opt_Z_eqb]. destruct (Z.eqb_spec id a) as [E | _]; [contradiction |].
  cbn [negb]. now rewrite orb_true_r.
Qed.

(** [finishSwipe] never looks at the pointer that was lifted. *)
Lemma finish_ignores_pointer_id d s id id' now w :
  handle d (PointerUp id now w) s = handle d (PointerUp id' now w) s
  /\ handle d (PointerCancel id now w) s = handle d (PointerUp id' now w) s.
Proof. split; reflexivity. Qed.

(** C3 fails on the code for pointer-up and pointer-cancel: during a
    drag by pointer 1 (200 px leftwards on a 1000 px viewport), lifting
    pointer 2 finishes the swipe: the session ends, the slide-out
    animation starts and the index goes from 0 to 1 when it has
    played.  A move of pointer 2 changes nothing. *)
Theorem C3_foreign_pointerup_finishes_swipe :
  let s := sample_drag 300 1000 in
  reachable sample_dom s
  /\ pointerDown (vars s) = true /\ activePointerId (vars s) = Some 1%Z
  /\ index (vars s) = Int 0
  /\ handle sample_dom (PointerMove 2 700 1000) s = s
  /\ (forall e, e = PointerUp 2 250 1000 \/ e = PointerCancel 2 250 1000 ->
      let s1 := handle sample_dom e s in
      s1 <> s
      /\ pointerDown (vars s1) = false /\ isAnimating (vars s1) = true
      /\ commit_pending s1
      /\ index (vars (run sample_dom [AnimationFrame; TransitionEnd] s1))
         = Int 1).
Proof.
  cbv zeta. split; [apply sample_drag_reachable |].
  do 4 (split; [vm_compute; reflexivity |]).
  assert (K : let s1 := finishSwipe 250 1000 (sample_drag 300 1000) in
              s1 <> sample_drag 300 1000
              /\ pointerDown (vars s1) = false /\ isAnimating (vars s1) = true
              /\ commit_pending s1
              /\ index (vars (run sample_dom [AnimationFrame; TransitionEnd] s1))
                 = Int 1).
  { cbv zeta. split.
    - intro H. apply (f_equal (fun s => pointerDown (vars s))) in H.
      vm_compute in H. discriminate.
    - do 2 (split; [vm_compute; reflexivity |]).
      split; [| vm_compute; reflexivity].
      eexists _, _. vm_compute. left. reflexivity. }
  intros e [-> | ->]; exact K.
Qed.

(** ** Circular index *)

Lemma setIndex_congr d x y s :
  js_rem (js_add x (N d)) (N d) = js_rem (js_add y (N d)) (N d) ->
  setIndex d x s = setIndex d y s.
Proof. unfold setIndex. now intros ->. Qed.

(** C4: [setIndex] reduces its argument modulo the item count N, also
    for negative arguments down to -N; [setIndex(-1)] does what
    [setIndex(N-1)] does and [setIndex(N)] what [setIndex(0)] does; the
    index is in [0, N) in every state the component reaches, hence after
    every event. *)
Theorem C4_index_wraps_and_stays_in_range d s :
  reachable d s ->
  setIndex d (Int (-1)) s = setIndex d (Int (N d - 1)) s
  /\ setIndex d (Int (N d)) s = setIndex d (Int 0) s
  /\ (forall z, (- N d <= z)%Z ->
      index (vars (setIndex d (Int z) s)) = Int (z mod N d))
  /\ index_in_range d s
  /\ (forall e, index_in_range d (handle d e s)).
Proof.
  intro R. pose proof (reachable_nonempty d s R) as HN.
  assert (K : forall z, (- N d <= z)%Z ->
              js_rem (js_add (Int z) (N d)) (N d) = Int (z mod N d)).
  { intros z Hz. destruct (normalise_in_range d z HN Hz) as [-> _].
    f_equal. rewrite <- (Z_mod_plus_full z 1 (N d)). f_equal. lia. }
  split; [| split; [| split; [| split]]].
  - apply setIndex_congr. rewrite !K by lia. f_equal.
    rewrite <- (Z_mod_plus_full (-1) 1 (N d)). f_equal. lia.
  - apply setIndex_congr. rewrite !K by lia. f_equal.
    rewrite Z_mod_same_full. reflexivity.
  - intros z Hz. rewrite setIndex_vars. cbn [index set_index]. now apply K.
  - apply (reachable_consistent d s R).
  - intro e. apply (reachable_consistent d (handle d e s)).
    now apply reach_step.
Qed.

Lemma C4_index_wraps_and_stays_in_range_witness :
  let s := sample_drag 300 1000 in
  setIndex sample_dom (Int (-1)) s = setIndex sample_dom (Int 2) s
  /\ setIndex sample_dom (Int 3) s = setIndex sample_dom (Int 0) s
  /\ index_in_range sample_dom (handle sample_dom ClickPrev s).
Proof.
  intro s.
  destruct (C4_index_wraps_and_stays_in_range sample_dom s
              (sample_drag_reachable 300 1000)) as (A & B & _ & _ & E).
  split; [exact A |]. split; [exact B | exact (E ClickPrev)].
Defined.

(** Below -N the remainder keeps the sign of its dividend: with three
    tiles, [setIndex(-4)] would leave the index at -1.  No call site
    passes such an argument. *)
Lemma setIndex_below_minus_N :
  index (vars (setIndex sample_dom (Int (-4)) sample_start)) = Int (-1).
Proof. vm_compute. reflexivity. Qed.

(** C9: the component stays inert over an empty gallery, so in every
    state it reaches the item count is at least 1, the remainder taken
    by [setIndex] has a non-zero divisor and yields a number, and the
    index is never [NaN]. *)
Theorem C9_no_modulo_by_zero d s :
  reachable d s ->
  tiles d <> []
  /\ (1 <= N d)%Z
  /\ (forall z, js_rem (js_add (Int z) (N d)) (N d)
                = Int (Z.rem (z + N d) (N d)))
  /\ index (vars s) <> NaN
  /\ (forall e, index (vars (handle d e s)) <> NaN)
  /\ (forall d' i0 p0, tiles d' = [] -> lightbox_init d' i0 p0 = None).
Proof.
  intro R. pose proof (reachable_nonempty d s R) as HN.
  assert (K : forall s', reachable d s' -> index (vars s') <> NaN).
  { intros s' R'. destruct (reachable_consistent d s' R') as ((i & -> & _) & _).
    discriminate. }
  split; [| split; [| split; [| split; [| split]]]].
  - intro E. unfold N in HN. rewrite E in HN. cbn in HN. lia.
  - exact HN.
  - intro z. cbn. destruct (Z.eqb_spec (N d) 0); [lia | reflexivity].
  - now apply K.
  - intro e. apply K. now apply reach_step.
  - intros d' i0 p0 E. unfold lightbox_init. now rewrite E.
Qed.

Lemma C9_no_modulo_by_zero_witness :
  (1 <= N sample_dom)%Z /\ index (vars (sample_drag 300 1000)) <> NaN.
Proof.
  destruct (C9_no_modulo_by_zero sample_dom (sample_drag 300 1000)
              (sample_drag_reachable 300 1000)) as (_ & A & _ & B & _).
  split; [exact A | exact B].
Defined.

(** ** Direction of a committed swipe *)

Lemma qualifies_nonzero dX startT now w :
  swipe_qualifies dX startT now w -> ~ dX == 0.
Proof.
  intros [H | H] E.
  - pose proof (Math_max_ge_l 320 w) as M.
    rewrite E in H. change (Qabs 0) with 0 in H. lra.
  - rewrite E in H. unfold Qdiv in H. rewrite Qmult_0_l in H.
    change (Qabs 0) with 0 in H. lra.
Qed.

Lemma commit_in_flight d now w s :
  reachable d s -> pointerDown (vars s) = true ->
  swipe_qualifies (deltaX (vars s)) (startT (vars s)) now w ->
  in_flight (finishSwipe now w s)
  = [Some (CbCommit (if ltb (deltaX (vars s)) 0 then 1 else -1)
                    (Math_max 320 w))].
Proof.
  intros R Hd Hq. destruct (dragging_idle d s R Hd) as [Ha Hf].
  rewrite (finishSwipe_commit now w s Hd Ha Hq).
  now apply in_flight_after_animate.
Qed.

Lemma commit_callback_steps d u j dir w :
  reachable d u -> index (vars u) = Int j -> (dir = 1 \/ dir = -1)%Z ->
  index (vars (done d (Some (CbCommit dir w)) u)) = Int ((j + dir) mod N d).
Proof.
  intros R Ej Hdir. pose proof (reachable_nonempty d u R) as HN.
  destruct (reachable_consistent d u R) as ((j' & Ej' & Rj) & _).
  assert (j' = j) by congruence. subst j'.
  rewrite done_commit_index. cbn [vars upd_vars set_isAnimating index].
  rewrite Ej. destruct Hdir as [-> | ->]; cbn [Z.eqb]; apply step_index; auto.
Qed.

(** C7: a committed drag is never of zero length.  The swap callback it
    leaves in flight carries direction +1 for a negative dX and -1 for a
    positive one, and whenever that callback runs it moves the index
    from j to (j + direction) mod N.  Played straight through (release,
    frame, end of transition) a negative dX takes the index from i to
    (i + 1) mod N and a positive dX to (i - 1) mod N. *)
Theorem C7_commit_direction d s e now w i :
  reachable d s -> pointerDown (vars s) = true -> index (vars s) = Int i ->
  ends_drag e now w -> commit_pending (handle d e s) ->
  let s3 := run d [e; AnimationFrame; TransitionEnd] s in
  let dir := if ltb (deltaX (vars s)) 0 then 1%Z else (-1)%Z in
  ~ deltaX (vars s) == 0
  /\ in_flight (handle d e s) = [Some (CbCommit dir (Math_max 320 w))]
  /\ (forall u j, reachable d u -> index (vars u) = Int j ->
      index (vars (done d (Some (CbCommit dir (Math_max 320 w))) u))
      = Int ((j + dir) mod N d))
  /\ (deltaX (vars s) < 0 ->
      dir = 1%Z /\ index (vars s3) = Int ((i + 1) mod N d))
  /\ (0 < deltaX (vars s) ->
      dir = (-1)%Z /\ index (vars s3) = Int ((i - 1) mod N d)).
Proof.
  intros R Hd Hi He Hc. cbv zeta. cbn [run fold_left].
  rewrite (ends_drag_handle d e now w s He) in *.
  apply (commit_pending_iff d now w s R Hd) in Hc.
  pose proof (commit_plays d now w s i R Hd Hi Hc) as K.
  split; [exact (qualifies_nonzero _ _ _ _ Hc) |].
  split; [now apply (commit_in_flight d) |].
  split.
  { intros u j Ru Ej. apply commit_callback_steps; auto.
    destruct (ltb (deltaX (vars s)) 0); auto. }
  split; intro Hs; rewrite K.
  - apply ltb_true_iff in Hs. rewrite Hs. now split.
  - destruct (ltb (deltaX (vars s)) 0) eqn:E; [| now split].
    apply ltb_true_iff in E. lra.
Qed.

(** A drag of -200 px released after 250 ms on a 1000 px viewport
    commits and lands on picture 1 of 3. *)
Lemma C7_commit_direction_witness :
  let s := sample_drag 300 1000 in
  let e := PointerUp 1 250 1000 in
  deltaX (vars s) < 0
  /\ commit_pending (handle sample_dom e s)
  /\ index (vars (run sample_dom [e; AnimationFrame; TransitionEnd] s))
     = Int ((0 + 1) mod N sample_dom).
Proof.
  intros s e.
  assert (Hn : deltaX (vars s) < 0) by (vm_compute; reflexivity).
  assert (Hc : commit_pending (handle sample_dom e s)).
  { eexists _, _. vm_compute. left. reflexivity. }
  split; [exact Hn |]. split; [exact Hc |].
  destruct (C7_commit_direction sample_dom s e 250 1000 0
              (sample_drag_reachable 300 1000) eq_refl eq_refl
              (ex_intro _ 1%Z (or_introl eq_refl)) Hc) as (_ & _ & _ & K & _).
  exact (proj2 (K Hn)).
Defined.

(** ** Effective width *)

(** C10: the drag opacity and the distance threshold both use the
    effective width max(320, innerWidth); on a viewport narrower than
    320 the opacity denominator is 320 * 0.9 and the distance threshold
    is 0.18 * 320. *)
Theorem C10_effective_width d s id x now w :
  reachable d s -> pointerDown (vars s) = true ->
  activePointerId (vars s) = Some id ->
  let dx := x - startX (vars s) in
  let dX := deltaX (vars s) in
  let v := dX / Math_max 1 (now - startT (vars s)) in
  img_opacity (img (handle d (PointerMove id x w) s))
  = Some (1 - clamp (Qabs dx / (Math_max 320 w * 0.9)) 0 1 * 0.25)
  /\ (commit_pending (handle d (PointerUp id now w) s)
      <-> Math_max 320 w * 0.18 < Qabs dX \/ 0.65 < Qabs v)
  /\ (w < 320 ->
      img_opacity (img (handle d (PointerMove id x w) s))
      = Some (1 - clamp (Qabs dx / (320 * 0.9)) 0 1 * 0.25)
      /\ (commit_pending (handle d (PointerUp id now w) s)
          <-> 0.18 * 320 < Qabs dX \/ 0.65 < Qabs v)).
Proof.
  intros R Hd Ea. cbv zeta.
  assert (O : img_opacity (img (handle d (PointerMove id x w) s))
              = Some (1 - clamp (Qabs (x - startX (vars s))
                                 / (Math_max 320 w * 0.9)) 0 1 * 0.25)).
  { cbn [handle]. unfold on_pointermove. rewrite Hd, Ea. cbn [opt_Z_eqb].
    rewrite Z.eqb_refl. reflexivity. }
  pose proof (commit_pending_iff d now w s R Hd) as C.
  change (finishSwipe now w s) with (handle d (PointerUp id now w) s) in C.
  unfold swipe_qualifies in C.
  split; [exact O |]. split; [exact C |].
  intro Hw. rewrite O, C, (Math_max_narrow w Hw).
  split; [reflexivity |].
  split; (intros [H | H]; [left; lra | right; exact H]).
Qed.

(** On a 300 px viewport, a drag from 500 to 445 shows at opacity
    1 - (55 / 288) * 0.25 and needs more than 57.6 px to commit by
    distance. *)
Lemma C10_effective_width_witness :
  let s := sample_drag 500 300 in
  img_opacity (img (handle sample_dom (PointerMove 1 445 300) s))
  = Some (1 - clamp (Qabs (445 - 500) / (320 * 0.9)) 0 1 * 0.25)
  /\ (1 - clamp (Qabs (445 - 500) / (320 * 0.9)) 0 1 * 0.25 == 1 - (55 / 288) * 0.25).
Proof.
  intro s.
  destruct (C10_effective_width sample_dom s 1 445 1000 300
              (sample_drag_reachable 500 300) eq_refl eq_refl)
    as (_ & _ & K).
  destruct (K ltac:(reflexivity)) as [A _].
  split; [exact A | vm_compute; reflexivity].
Defined.

End LightboxFacts.

(* ===================================================================== *)
(** * Properties of the ambient driver *)
(* ===================================================================== *)

Module AmbientFacts.

Import Ambient.
Import Reals Lra.
Local Open Scope R_scope.

(** ** What [tick] touches *)

Ltac split_ifs :=
  repeat match goal with
         | |- context [if ?b then _ else _] => destruct b
         end.

Lemma tick_loop c time s :
  rafId (tick c time s) = Some (nextHandle s)
  /\ scheduled (tick c time s) = scheduled s ++ [nextHandle s].
Proof. unfold tick. split_ifs; split; reflexivity. Qed.

Lemma tick_executed c time s :
  ~ time - lastFrame s < FRAME_MIN_MS ->
  tick c time s
  = rearm (turbulence_step c time
             (gate_r c time (gate_y c time (gate_x c time
                                              (set_lastFrame time s))))).
Proof.
  intro H. unfold tick. destruct (Rlt_dec _ _) as [K | _]; [contradiction |].
  reflexivity.
Qed.

Lemma tick_throttled c time s :
  time - lastFrame s < FRAME_MIN_MS -> tick c time s = rearm s.
Proof.
  intro H. unfold tick. destruct (Rlt_dec _ _) as [_ | K]; [| contradiction].
  reflexivity.
Qed.

(** ** Write suppression, channel by channel *)

Lemma gate_x_gated c time s :
  channel_gated LfX 0.06 (drift_x c (time * 0.001)) lastX s (gate_x c time s).
Proof.
  unfold channel_gated, gate_x, channel, nearlyEqual.
  destruct (lastX s) as [l |] eqn:E; [| reflexivity].
  destruct (Rle_dec _ _) as [K | K]; cbn [negb]; split; intro H;
    solve [lra | now rewrite ?E | reflexivity].
Qed.

Lemma gate_y_gated c time s :
  channel_gated LfY 0.06 (drift_y c (time * 0.001)) lastY s (gate_y c time s).
Proof.
  unfold channel_gated, gate_y, channel, nearlyEqual.
  destruct (lastY s) as [l |] eqn:E; [| reflexivity].
  destruct (Rle_dec _ _) as [K | K]; cbn [negb]; split; intro H;
    solve [lra | now rewrite ?E | reflexivity].
Qed.

Lemma gate_r_gated c time s :
  channel_gated LfR 0.012 (drift_rotation c (time * 0.001)) lastR s
                (gate_r c time s).
Proof.
  unfold channel_gated, gate_r, channel, nearlyEqual.
  destruct (lastR s) as [l |] eqn:E; [| reflexivity].
  destruct (Rle_dec _ _) as [K | K]; cbn [negb]; split; intro H;
    solve [lra | now rewrite ?E | reflexivity].
Qed.

(** A step that leaves a channel alone can be added before or after. *)
Lemma channel_gated_frame v eps new last s0 s s' s1 :
  channel v last s = channel v last s0 ->
  channel v last s1 = channel v last s' ->
  channel_gated v eps new last s s' ->
  channel_gated v eps new last s0 s1.
Proof.
  intros E0 E1 H. unfold channel_gated in *.
  assert (L : last s = last s0) by (unfold channel in E0; congruence).
  assert (W : write_count v (styleWrites s) = write_count v (styleWrites s0))
    by (unfold channel in E0; congruence).
  rewrite <- L, <- W, E1, <- E0. exact H.
Qed.

Ltac channel_untouched :=
  unfold channel, gate_x, gate_y, gate_r, turbulence_step, rearm;
  split_ifs; reflexivity.

(** ** Invariants of the running driver *)

Lemma tick_coherent c time s :
  cache_coherent s -> cache_coherent (tick c time s).
Proof.
  unfold cache_coherent, tick, rearm. intros (A & B & C).
  split_ifs; cbn; auto.
Qed.

Lemma start_coherent s : cache_coherent s -> cache_coherent (start s).
Proof. unfold start. now destruct (rafId s). Qed.

Lemma stop_coherent s : cache_coherent s -> cache_coherent (stop s).
Proof. unfold stop. now destruct (rafId s). Qed.

Lemma remove_single (h : positive) : List.remove Pos.eq_dec h [h] = [].
Proof. cbn. destruct (Pos.eq_dec h h); [reflexivity | contradiction]. Qed.

Lemma start_loop s :
  scheduled s = loop_handles s -> scheduled (start s) = loop_handles (start s).
Proof.
  unfold start, loop_handles. destruct (rafId s) eqn:E; intro H.
  - now rewrite E.
  - cbn. now rewrite H.
Qed.

Lemma stop_loop s :
  scheduled s = loop_handles s -> scheduled (stop s) = loop_handles (stop s).
Proof.
  unfold stop, loop_handles. destruct (rafId s) eqn:E; intro H.
  - cbn. rewrite H. apply remove_single.
  - now rewrite E.
Qed.

(** A frame runs the one scheduled callback, if there is one. *)
Lemma frame_runs c time s :
  scheduled s = loop_handles s ->
  handle c (Frame time) s
  = match rafId s with
    | Some h => tick c time (cancelAnimationFrame h s)
    | None => s
    end.
Proof.
  unfold loop_handles. intro H. cbn [handle]. rewrite H.
  destruct (rafId s) as [h |]; [| reflexivity].
  cbn [fold_left]. unfold run_scheduled. rewrite H.
  destruct (in_dec Pos.eq_dec h [h]) as [_ | K]; [reflexivity |].
  exfalso. apply K. now left.
Qed.

Lemma frame_loop c time s :
  scheduled s = loop_handles s ->
  scheduled (handle c (Frame time) s) = loop_handles (handle c (Frame time) s).
Proof.
  intro H. rewrite (frame_runs c time s H).
  destruct (rafId s) as [h |] eqn:E; [| exact H].
  unfold loop_handles in *. rewrite E in H.
  destruct (tick_loop c time (cancelAnimationFrame h s)) as [-> ->].
  cbn. rewrite H, remove_single. reflexivity.
Qed.

Lemma frame_coherent c time s :
  scheduled s = loop_handles s ->
  cache_coherent s -> cache_coherent (handle c (Frame time) s).
Proof.
  intros H K. rewrite (frame_runs c time s H).
  destruct (rafId s); [apply tick_coherent |]; exact K.
Qed.

Lemma reachable_ok c s :
  reachable c s -> scheduled s = loop_handles s /\ cache_coherent s.
Proof.
  induction 1 as [h0 s E | s e R [IH1 IH2]].
  - unfold ambient_init in E. destruct (negb (has_lightfield c)); [discriminate |].
    injection E as <-. split; [reflexivity | repeat split].
  - destruct e as [time | [|] | |];
      [split; [apply frame_loop | apply frame_coherent]; assumption | ..];
      cbn [handle]; split;
      auto using start_loop, stop_loop, start_coherent, stop_coherent.
Qed.

Lemma sample_running_reachable : reachable sample_caps sample_running.
Proof. apply (reach_init sample_caps 1%positive). reflexivity. Qed.

Lemma sample_first_frame_executes : ~ 33 - lastFrame sample_running < FRAME_MIN_MS.
Proof. unfold FRAME_MIN_MS. cbn. lra. Qed.

(** ** Write suppression *)

Lemma tick_gates c time s :
  ~ time - lastFrame s < FRAME_MIN_MS ->
  let t := time * 0.001 in
  let s' := tick c time s in
  channel_gated LfX 0.06 (drift_x c t) lastX s s'
  /\ channel_gated LfY 0.06 (drift_y c t) lastY s s'
  /\ channel_gated LfR 0.012 (drift_rotation c t) lastR s s'.
Proof.
  intro H. cbv zeta. rewrite (tick_executed c time s H).
  set (s0 := set_lastFrame time s).
  split; [| split].
  - apply (channel_gated_frame _ _ _ _ s s0 (gate_x c time s0));
      [reflexivity | channel_untouched | apply gate_x_gated].
  - apply (channel_gated_frame _ _ _ _ s (gate_x c time s0)
             (gate_y c time (gate_x c time s0)));
      [channel_untouched | channel_untouched | apply gate_y_gated].
  - apply (channel_gated_frame _ _ _ _ s (gate_y c time (gate_x c time s0))
             (gate_r c time (gate_y c time (gate_x c time s0))));
      [channel_untouched | channel_untouched | apply gate_r_gated].
Qed.

Lemma tick_executed_lastFrame c time s :
  ~ time - lastFrame s < FRAME_MIN_MS -> lastFrame (tick c time s) = time.
Proof.
  intro H. rewrite (tick_executed c time s H).
  unfold rearm, turbulence_step, gate_r, gate_y, gate_x.
  split_ifs; reflexivity.
Qed.

(** Suppression at work: under reduced motion the rotation moves by
    less than 0.0016 between the updates at 33 ms and 66 ms, so the
    second update leaves the one write of the first in place. *)
Lemma rotation_write_suppressed :
  let s1 := tick sample_caps 33 sample_running in
  let s2 := tick sample_caps 66 s1 in
  channel LfR lastR s1
  = (Some (drift_rotation sample_caps (33 * 0.001)),
     Some (drift_rotation sample_caps (33 * 0.001)), 1%nat)
  /\ channel LfR lastR s2 = channel LfR lastR s1.
Proof.
  cbv zeta.
  destruct (tick_gates sample_caps 33 sample_running sample_first_frame_executes)
    as (_ & _ & G1).
  assert (G : channel LfR lastR (tick sample_caps 33 sample_running)
              = (Some (drift_rotation sample_caps (33 * 0.001)),
                 Some (drift_rotation sample_caps (33 * 0.001)), 1%nat))
    by exact G1.
  clear G1. split; [exact G |].
  assert (F : lastFrame (tick sample_caps 33 sample_running) = 33)
    by (apply tick_executed_lastFrame, sample_first_frame_executes).
  assert (E : ~ 66 - lastFrame (tick sample_caps 33 sample_running) < FRAME_MIN_MS)
    by (rewrite F; unfold FRAME_MIN_MS; lra).
  destruct (tick_gates sample_caps 66 _ E) as (_ & _ & G2).
  unfold channel_gated in G2.
  assert (L : lastR (tick sample_caps 33 sample_running)
              = Some (drift_rotation sample_caps (33 * 0.001)))
    by (unfold channel in G; congruence).
  rewrite L in G2. apply (proj1 G2).
  unfold drift_rotation. cbn [prefersReducedMotion sample_caps].
  pose proof (sin_lt_x (33 * 0.001 * 0.12) ltac:(lra)).
  pose proof (sin_lt_x (66 * 0.001 * 0.12) ltac:(lra)).
  pose proof (sin_pos_tech (33 * 0.001 * 0.12) ltac:(lra)).
  pose proof (sin_pos_tech (66 * 0.001 * 0.12) ltac:(lra)).
  apply Rabs_le. lra.
Qed.

(** C5: on an executed update each of the three properties is judged on
    its own against its cached value, which is the value the property
    holds: within the epsilon (0.06 for x and y, 0.012 for the rotation)
    nothing is written and the property keeps its value; beyond it the
    property is rewritten to the new value.  Before the first write the
    cache is [NaN] and the property is written. *)
Theorem C5_write_suppression c s time :
  reachable c s -> ~ time - lastFrame s < FRAME_MIN_MS ->
  let t := time * 0.001 in
  let s' := tick c time s in
  cache_coherent s
  /\ channel_gated LfX 0.06 (drift_x c t) lastX s s'
  /\ channel_gated LfY 0.06 (drift_y c t) lastY s s'
  /\ channel_gated LfR 0.012 (drift_rotation c t) lastR s s'.
Proof.
  intros R H. cbv zeta.
  split; [apply (reachable_ok c s R) | apply (tick_gates c time s H)].
Qed.

(** The first executed update after start-up writes x. *)
Lemma C5_write_suppression_witness :
  let s' := tick sample_caps 33 sample_running in
  channel LfX lastX s'
  = (Some (drift_x sample_caps (33 * 0.001)),
     Some (drift_x sample_caps (33 * 0.001)), 1%nat).
Proof.
  destruct (C5_write_suppression sample_caps sample_running 33
              sample_running_reachable sample_first_frame_executes)
    as (_ & K & _).
  exact K.
Defined.

(** ** Drift formulas *)

(** C6: an executed update at [time] ms takes t = time * 0.001 and
    computes x, y and the rotation by the three formulas below; these
    are the values [tick] compares with its caches and writes: each
    channel is gated on its formula value (written at once while the
    cache is still [NaN], rewritten to it beyond the epsilon, left alone
    within it), the update records [time] as its frame time, and every
    property write it makes carries the formula value of its channel.
    The amplitudes depend on the start-up readings alone: (8, 6) under
    reduced motion, else (24, 16) on a compact viewport, else
    (56, 40). *)
Theorem C6_drift_formulas c s time :
  ~ time - lastFrame s < FRAME_MIN_MS ->
  let t := time * 0.001 in
  let x := sin (t * 0.10) * AMP_X c * 0.55 + sin (t * 0.35) * AMP_X c
           + sin (t * 0.18) * AMP_X c * 0.55 in
  let y := cos (t * 0.09) * AMP_Y c * 0.55 + cos (t * 0.30) * AMP_Y c
           + sin (t * 0.22) * AMP_Y c * 0.65 in
  let r := sin (t * 0.12) * (if prefersReducedMotion c then 0.2 else 1.0) in
  let s' := tick c time s in
  drift_x c t = x /\ drift_y c t = y /\ drift_rotation c t = r
  /\ lastFrame s' = time
  /\ channel_gated LfX 0.06 x lastX s s'
  /\ channel_gated LfY 0.06 y lastY s s'
  /\ channel_gated LfR 0.012 r lastR s s'
  /\ (lastX s' = Some x \/ lastX s' = lastX s)
  /\ (lastY s' = Some y \/ lastY s' = lastY s)
  /\ (lastR s' = Some r \/ lastR s' = lastR s)
  /\ (forall w, In w (styleWrites s') ->
      In w (styleWrites s) \/ w = (LfX, x) \/ w = (LfY, y) \/ w = (LfR, r))
  /\ (AMP_X c, AMP_Y c)
     = (if prefersReducedMotion c then (8, 6)
        else if isMobile c then (24, 16) else (56, 40)).
Proof.
  intro H. cbv zeta.
  assert (Ex : drift_x c (time * 0.001)
               = sin (time * 0.001 * 0.10) * AMP_X c * 0.55
                 + sin (time * 0.001 * 0.35) * AMP_X c
                 + sin (time * 0.001 * 0.18) * AMP_X c * 0.55)
    by (unfold drift_x, travelX; ring).
  assert (Ey : drift_y c (time * 0.001)
               = cos (time * 0.001 * 0.09) * AMP_Y c * 0.55
                 + cos (time * 0.001 * 0.30) * AMP_Y c
                 + sin (time * 0.001 * 0.22) * AMP_Y c * 0.65)
    by (unfold drift_y, travelY; ring).
  split; [exact Ex |]. split; [exact Ey |]. split; [reflexivity |].
  split; [apply tick_executed_lastFrame; exact H |].
  rewrite <- Ex, <- Ey.
  change (sin (time * 0.001 * 0.12)
          * (if prefersReducedMotion c then 0.2 else 1.0))
    with (drift_rotation c (time * 0.001)).
  destruct (tick_gates c time s H) as (Gx & Gy & Gr).
  split; [exact Gx |]. split; [exact Gy |]. split; [exact Gr |].
  rewrite (tick_executed c time s H).
  unfold rearm, turbulence_step, gate_r, gate_y, gate_x.
  repeat split.
  - split_ifs; cbn; auto.
  - split_ifs; cbn; auto.
  - split_ifs; cbn; auto.
  - split_ifs; cbn; intuition (subst; auto).
  - unfold AMP_X, AMP_Y. split_ifs; reflexivity.
Qed.

(** The first executed update under reduced motion, at 33 ms: the
    property [--lf-x], unset so far, now holds the x formula at
    t = 0.033 with amplitude 8, written once. *)
Lemma C6_drift_formulas_witness :
  let s' := tick sample_caps 33 sample_running in
  lastFrame s' = 33
  /\ css_value LfX (styleWrites s')
     = Some (sin (33 * 0.001 * 0.10) * 8 * 0.55 + sin (33 * 0.001 * 0.35) * 8
             + sin (33 * 0.001 * 0.18) * 8 * 0.55)
  /\ write_count LfX (styleWrites s') = 1%nat
  /\ lastR s' = Some (sin (33 * 0.001 * 0.12) * 0.2)
  /\ (AMP_X sample_caps, AMP_Y sample_caps) = (8, 6).
Proof.
  destruct (C6_drift_formulas sample_caps sample_running 33
              sample_first_frame_executes)
    as (_ & _ & _ & F & Gx & _ & Gr & _ & _ & _ & _ & A).
  assert (Kx : channel LfX lastX (tick sample_caps 33 sample_running)
               = (Some (sin (33 * 0.001 * 0.10) * 8 * 0.55
                        + sin (33 * 0.001 * 0.35) * 8
                        + sin (33 * 0.001 * 0.18) * 8 * 0.55),
                  Some (sin (33 * 0.001 * 0.10) * 8 * 0.55
                        + sin (33 * 0.001 * 0.35) * 8
                        + sin (33 * 0.001 * 0.18) * 8 * 0.55), 1%nat))
    by exact Gx.
  assert (Kr : channel LfR lastR (tick sample_caps 33 sample_running)
               = (Some (sin (33 * 0.001 * 0.12) * 0.2),
                  Some (sin (33 * 0.001 * 0.12) * 0.2), 1%nat))
    by exact Gr.
  unfold channel in Kx, Kr.
  injection Kx as _ Kx2 Kx3. injection Kr as Kr1 _ _.
  cbv zeta. repeat split; assumption.
Defined.

(** ** Start and stop *)

(** C8: [start] with a loop running and [stop] without one leave the
    state as it is; each is idempotent; in every state the driver
    reaches the browser holds at most one scheduled callback of the
    loop, namely the one [rafId] names; two [start]s in a row leave
    exactly one, two [stop]s none. *)
Theorem C8_start_stop_idempotent c s :
  reachable c s ->
  (rafId s <> None -> start s = s)
  /\ (rafId s = None -> stop s = s)
  /\ start (start s) = start s
  /\ stop (stop s) = stop s
  /\ scheduled s = loop_handles s
  /\ (List.length (scheduled s) <= 1)%nat
  /\ List.length (scheduled (start (start s))) = 1%nat
  /\ scheduled (stop (stop s)) = []
  /\ rafId (stop (stop s)) = None.
Proof.
  intro R. destruct (reachable_ok c s R) as [L _].
  assert (A : start (start s) = start s).
  { unfold start at 1. destruct (rafId (start s)) eqn:E; [reflexivity |].
    unfold start in E. destruct (rafId s) eqn:E'; cbn in E; congruence. }
  assert (B : stop (stop s) = stop s).
  { unfold stop at 1. destruct (rafId (stop s)) eqn:E; [| reflexivity].
    unfold stop in E. destruct (rafId s) eqn:E'; cbn in E; congruence. }
  split; [unfold start; destruct (rafId s); [reflexivity | congruence] |].
  split; [unfold stop; now intros -> |].
  split; [exact A |]. split; [exact B |]. split; [exact L |].
  split; [rewrite L; unfold loop_handles; destruct (rafId s); cbn; lia |].
  rewrite A, B, (start_loop s L), (stop_loop s L).
  unfold loop_handles, start, stop.
  destruct (rafId s) eqn:E; rewrite ?E; cbn; auto.
Qed.

Lemma C8_start_stop_idempotent_witness :
  start (start sample_running) = start sample_running
  /\ scheduled sample_running = [1%positive]
  /\ scheduled (stop (stop sample_running)) = [].
Proof.
  destruct (C8_start_stop_idempotent sample_caps sample_running
              sample_running_reachable) as (_ & _ & A & _ & B & _ & _ & C & _).
  split; [exact A |]. split; [exact B | exact C].
Defined.

End AmbientFacts.

(* ===================================================================== *)
(** * Further properties of the lightbox *)
(* ===================================================================== *)

Module LightboxMore.

Import Lightbox LightboxFacts LightboxViews.
Import Lqa.
Local Open Scope Q_scope.

(** ** The shape of the basic steps *)

(** [setIndex] writes the index and, at most, the image source and the
    preload list. *)
Lemma setIndex_shape d x s :
  exists src pl,
    setIndex d x s
    = mkState (set_index (js_rem (js_add x (N d)) (N d)) (vars s))
              (set_src src (img s))
              (set_preloaded (preloaded (page s) ++ pl) (page s))
    /\ (getFullSrc d (js_rem (js_add x (N d)) (N d)) = EmptyString
        \/ src = getFullSrc d (js_rem (js_add x (N d)) (N d)))
    /\ (List.length pl <= 2)%nat
    /\ Forall (fun u => u <> EmptyString /\ exists i, u = getFullSrc d i) pl.
Proof.
  unfold setIndex. set (i := js_rem (js_add x (N d)) (N d)).
  destruct (String.eqb_spec (getFullSrc d i) EmptyString) as [E | E].
  - exists (img_src (img s)), []. rewrite app_nil_r.
    destruct s as [v [] []]. cbn. repeat split; auto.
  - unfold preload.
    destruct (String.eqb_spec (getFullSrc d (js_add i (-1))) EmptyString) as [E1 | E1];
      destruct (String.eqb_spec (getFullSrc d (js_add i 1)) EmptyString) as [E2 | E2].
    + exists (getFullSrc d i), []. rewrite app_nil_r.
      destruct s as [v [] []]. cbn. repeat split; auto.
    + exists (getFullSrc d i), [getFullSrc d (js_add i 1)].
      destruct s as [v [] []]. cbn. repeat split; auto.
      repeat constructor; eauto.
    + exists (getFullSrc d i), [getFullSrc d (js_add i (-1))].
      destruct s as [v [] []]. cbn. repeat split; auto.
      repeat constructor; eauto.
    + exists (getFullSrc d i),
        [getFullSrc d (js_add i (-1)); getFullSrc d (js_add i 1)].
      split; [destruct s as [v [] []];
              unfold upd_page, upd_img, upd_vars, set_preloaded; cbn;
              now rewrite <- app_assoc |].
      repeat split; auto. repeat constructor; eauto.
Qed.

(** In a state the component reaches, the end of a transition finds at
    most one [done] listener. *)
Lemma transition_end_cases d s :
  reachable d s ->
  (img_listeners (img s) = []
   /\ handle d TransitionEnd s = upd_img (set_listeners []) s)
  \/ (exists cb, img_listeners (img s) = [cb]
                 /\ anim_cbs (rafQueue (page s)) = []
                 /\ isAnimating (vars s) = true
                 /\ handle d TransitionEnd s
                    = done d cb (upd_img (set_listeners []) s)).
Proof.
  intro R. destruct (reachable_consistent d s R) as (_ & _ & Hf).
  unfold in_flight in Hf. rewrite length_app in Hf. cbn [handle].
  destruct (img_listeners (img s)) as [| cb [| cb' ls]] eqn:El.
  - left. split; reflexivity.
  - right. exists cb. cbn in Hf.
    destruct (anim_cbs (rafQueue (page s))); cbn in Hf;
      destruct (isAnimating (vars s)); try lia.
    repeat split; reflexivity.
  - cbn in Hf. destruct (isAnimating (vars s)); lia.
Qed.

Lemma fold_run_raf_src q : forall s,
  img_src (img (fold_left (fun s t => run_raf t s) q s)) = img_src (img s).
Proof.
  induction q as [| t q IH]; intro s; [reflexivity |].
  cbn [fold_left]. rewrite IH. destruct t; reflexivity.
Qed.

(** ** Kinds of step *)

Lemma quiet_refl s : quiet s s.
Proof. repeat split. Qed.

Lemma setIndex_navigated d x s : navigated d s (setIndex d x s).
Proof.
  destruct (setIndex_shape d x s) as (src & pl & -> & Hs & Hl & Hp).
  split; [reflexivity |]. split.
  - unfold shows_current. cbn. destruct Hs as [E | ->]; auto.
  - exists pl. cbn. auto.
Qed.

Lemma navigated_then_quiet d s s1 s2 :
  navigated d s s1 -> quiet s1 s2 -> navigated d s s2.
Proof.
  intros (A & B & pl & C) (A' & I & S & P).
  split; [congruence |]. split.
  - unfold shows_current in *. rewrite I, S. exact B.
  - exists pl. rewrite P. exact C.
Qed.

Lemma quiet_then_navigated d s s1 s2 :
  quiet s s1 -> navigated d s1 s2 -> navigated d s s2.
Proof.
  intros (A' & I & S & P) (A & B & pl & C).
  split; [congruence |]. split; [exact B |].
  exists pl. rewrite <- P. exact C.
Qed.

Lemma open_kind d i t s :
  (if isOpen (vars s) then quiet s (open d i t s) else opened d s (open d i t s)).
Proof.
  unfold open. destruct (isOpen (vars s)) eqn:Eo; [apply quiet_refl |].
  set (s1 := resetVisual _).
  destruct (setIndex_navigated d (Int i) s1) as (A & B & pl & C).
  assert (K : forall s2, quiet (setIndex d (Int i) s1) s2 -> opened d s s2).
  { intros s2 (A' & I & S & P).
    unfold shell in A, A'. injection A as A1 A2 A3 A4 A5.
    injection A' as A1' A2' A3' A4' A5'.
    unfold opened. rewrite A1', A2', A3', A4', A5', A1, A2, A3, A4, A5.
    assert (Pl : preloaded (page s1) = preloaded (page s))
      by (subst s1; destruct (has_scroller d); reflexivity).
    split; [exact Eo |]. split; [subst s1; destruct (has_scroller d); reflexivity |].
    split; [subst s1; destruct (has_scroller d); discriminate |].
    split; [subst s1; destruct (has_scroller d); reflexivity |].
    split; [subst s1; destruct (has_scroller d); reflexivity |].
    split; [subst s1; destruct (has_scroller d); reflexivity |].
    split.
    - unfold shows_current in *. rewrite I, S. exact B.
    - exists pl. rewrite P, <- Pl. exact C. }
  apply K. destruct (has_closeBtn d); repeat split.
Qed.

Lemma close_kind d s :
  (if isOpen (vars s) then closed d s (close d s) else quiet s (close d s)).
Proof.
  unfold close. destruct (isOpen (vars s)) eqn:Eo; [| apply quiet_refl].
  cbn [negb]. unfold closed.
  destruct (has_scroller d); cbn; destruct (lastActive (vars s)) eqn:El; cbn;
    repeat split; auto.
Qed.

Lemma done_kind d cb s :
  quiet s (done d cb s) \/ navigated d s (done d cb s).
Proof.
  unfold done, run_callback. destruct cb as [[| dir w] |].
  - left. repeat split.
  - right. set (s0 := upd_vars (set_isAnimating false) s).
    apply (quiet_then_navigated d s s0); [repeat split |].
    apply (navigated_then_quiet d s0 (if (dir =? 1)%Z then next d s0 else prev d s0));
      [destruct (dir =? 1)%Z; apply setIndex_navigated | repeat split].
  - left. repeat split.
Qed.

(** Steps other than a gallery click, a close click and Escape neither
    open nor close. *)
Lemma inner_step_kinds d s e :
  reachable d s -> opens_or_closes e = false ->
  quiet s (handle d e s) \/ navigated d s (handle d e s).
Proof.
  intros R He.
  destruct e as [btn im | | | | k | id x now | id x w | id now w | id now w | |];
    try discriminate He; cbn [handle].
  - destruct (has_btnPrev d); [| left; apply quiet_refl].
    right. apply setIndex_navigated.
  - destruct (has_btnNext d); [| left; apply quiet_refl].
    right. apply setIndex_navigated.
  - unfold on_keydown. destruct (isOpen (vars s)) eqn:Eo; [| left; apply quiet_refl].
    cbn [negb]. destruct k; try discriminate He.
    + right. apply setIndex_navigated.
    + right. apply setIndex_navigated.
    + left. apply quiet_refl.
  - left. unfold on_pointerdown. destruct (_ || _); repeat split.
  - left. unfold on_pointermove. destruct (_ || _); repeat split.
  - left. unfold finishSwipe, animateTo.
    destruct (pointerDown (vars s)); [| apply quiet_refl]. cbn [negb]. cbv zeta.
    destruct (negb _); cbn [vars upd_vars set_pointerDown isAnimating];
      destruct (isAnimating (vars s)); repeat split.
  - left. unfold finishSwipe, animateTo.
    destruct (pointerDown (vars s)); [| apply quiet_refl]. cbn [negb]. cbv zeta.
    destruct (negb _); cbn [vars upd_vars set_pointerDown isAnimating];
      destruct (isAnimating (vars s)); repeat split.
  - left.
    destruct (fold_run_raf (rafQueue (page s)) (upd_page (set_rafQueue []) s))
      as (Ev & Ep & _).
    cbv zeta in Ev, Ep. unfold quiet, shell.
    rewrite Ev, Ep, fold_run_raf_src. repeat split.
  - destruct (transition_end_cases d s R) as [[_ E] | (cb & _ & _ & _ & E)];
      cbn [handle] in E; rewrite E.
    + left. repeat split.
    + set (s0 := upd_img (set_listeners []) s).
      destruct (done_kind d cb s0) as [K | K].
      * left. destruct K as (A & B & C & D). repeat split; auto.
      * right. apply (quiet_then_navigated d s s0); [repeat split | exact K].
Qed.

(** Every step of the running component is of one of four kinds. *)
Lemma step_kinds d s e :
  reachable d s ->
  let s' := handle d e s in
  quiet s s' \/ navigated d s s' \/ opened d s s' \/ closed d s s'.
Proof.
  intros R s'. subst s'.
  destruct (opens_or_closes e) eqn:He.
  - destruct e as [btn im | | | | k | | | | | |]; try discriminate He;
      cbn [handle].
    + destruct (indexOf d im >=? 0)%Z; [| left; apply quiet_refl].
      pose proof (open_kind d (indexOf d im) (Some (GalleryBtn btn)) s) as K.
      destruct (isOpen (vars s)); auto.
    + destruct (has_closeBtn d); [| left; apply quiet_refl].
      pose proof (close_kind d s) as K. destruct (isOpen (vars s)); auto.
    + destruct k; try discriminate He. unfold on_keydown.
      destruct (isOpen (vars s)) eqn:Eo; [| left; apply quiet_refl].
      pose proof (close_kind d s) as K. rewrite Eo in K. auto.
  - destruct (inner_step_kinds d s e R He); auto.
Qed.

(** ** Open means visible *)

(** While the lightbox is open it is un-hidden, announced as visible,
    the inner scroller (if the page has one) is locked, and the element
    to give the focus back to is on record. *)
Theorem open_lightbox_is_visible d s :
  reachable d s -> isOpen (vars s) = true ->
  lb_hidden (page s) = false
  /\ lb_aria_hidden (page s) = "false"%string
  /\ (has_scroller d = true -> scroller_overflow (page s) = "hidden"%string)
  /\ lastActive (vars s) <> None.
Proof.
  induction 1 as [i0 p0 s E | s e R IH].
  - destruct (init_nonempty d _ _ _ E) as [_ ->]. discriminate.
  - intro Ho.
    destruct (step_kinds d s e R) as [K | [K | [K | K]]].
    + destruct K as (A & _). unfold shell in A. injection A as A1 A2 A3 A4 A5.
      rewrite A2, A3, A4, A5. apply IH. congruence.
    + destruct K as (A & _). unfold shell in A. injection A as A1 A2 A3 A4 A5.
      rewrite A2, A3, A4, A5. apply IH. congruence.
    + destruct K as (_ & _ & L & H1 & H2 & H3 & _).
      repeat split; auto. intro Hs. now rewrite H3, Hs.
    + destruct K as (_ & C & _). congruence.
Qed.

Lemma open_lightbox_is_visible_witness :
  lb_hidden (page (sample_drag 300 1000)) = false
  /\ scroller_overflow (page (sample_drag 300 1000)) = "hidden"%string.
Proof.
  destruct (open_lightbox_is_visible sample_dom (sample_drag 300 1000)
              (sample_drag_reachable 300 1000) eq_refl) as (A & _ & B & _).
  split; [exact A | exact (B eq_refl)].
Defined.

(** ** The image on display *)

Lemma getFullSrc_in_range d i :
  (0 <= i < N d)%Z ->
  exists t, nth_error (tiles d) (Z.to_nat i) = Some t
            /\ getFullSrc d (Int i)
               = or_else (data_full t) (or_else (tile_src t) EmptyString).
Proof.
  intro Hi. unfold getFullSrc.
  destruct (normalise_in_range d i ltac:(lia) ltac:(lia)) as [-> _].
  replace ((i + N d) mod N d)%Z with i
    by (replace (i + N d)%Z with (i + 1 * N d)%Z by lia;
        rewrite Z_mod_plus_full; symmetry; apply Z.mod_small; lia).
  unfold tile_at. destruct (Z.ltb_spec i 0) as [? | _]; [lia |].
  destruct (nth_error (tiles d) (Z.to_nat i)) as [t |] eqn:E.
  - exists t. split; reflexivity.
  - apply nth_error_None in E. unfold N in Hi. lia.
Qed.

(** While the lightbox is open, the image on display is the current
    tile's [data-full] attribute if it has a non-empty one, else its
    [src]; only a tile without any source leaves the previous image
    up. *)
Theorem open_lightbox_shows_current_tile d s :
  reachable d s -> isOpen (vars s) = true ->
  exists i t,
    index (vars s) = Int i
    /\ nth_error (tiles d) (Z.to_nat i) = Some t
    /\ let src := or_else (data_full t) (or_else (tile_src t) EmptyString) in
       src = EmptyString \/ img_src (img s) = src.
Proof.
  intros R Ho.
  assert (K : shows_current d s).
  { revert Ho. induction R as [i0 p0 s E | s e R IH].
    - destruct (init_nonempty d _ _ _ E) as [_ ->]. discriminate.
    - intro Ho.
      destruct (step_kinds d s e R) as [K | [K | [K | K]]].
      + destruct K as (A & I & S & _). unfold shell in A. injection A as A1 _ _ _ _.
        unfold shows_current. rewrite I, S. apply IH. congruence.
      + apply K.
      + apply K.
      + destruct K as (_ & C & _). congruence. }
  destruct (reachable_consistent d s R) as ((i & Ei & Ri) & _).
  destruct (getFullSrc_in_range d i Ri) as (t & Et & Es).
  exists i, t. split; [exact Ei |]. split; [exact Et |].
  cbv zeta. rewrite <- Es, <- Ei. exact K.
Qed.

Lemma open_lightbox_shows_current_tile_witness :
  exists i t,
    index (vars (sample_drag 300 1000)) = Int i
    /\ nth_error sample_tiles (Z.to_nat i) = Some t
    /\ (or_else (data_full t) (or_else (tile_src t) EmptyString) = EmptyString
        \/ img_src (img (sample_drag 300 1000))
           = or_else (data_full t) (or_else (tile_src t) EmptyString)).
Proof.
  exact (open_lightbox_shows_current_tile sample_dom (sample_drag 300 1000)
           (sample_drag_reachable 300 1000) eq_refl).
Defined.

(** ** Preloading *)

(** No step drops a preload; a step adds at most two, and never one for
    an empty URL. *)
Theorem preloads_only_grow d s e :
  reachable d s -> preloads_grow d s (handle d e s).
Proof.
  intro R.
  destruct (step_kinds d s e R) as [K | [K | [K | K]]].
  - destruct K as (_ & _ & _ & P). exists []. rewrite P, app_nil_r.
    repeat split; auto.
  - apply K.
  - apply K.
  - destruct K as (_ & _ & _ & _ & _ & _ & _ & _ & P).
    exists []. rewrite P, app_nil_r. repeat split; auto.
Qed.

Lemma preloads_only_grow_witness :
  preloads_grow sample_dom (sample_drag 300 1000)
                (handle sample_dom ClickNext (sample_drag 300 1000)).
Proof.
  exact (preloads_only_grow sample_dom (sample_drag 300 1000) ClickNext
           (sample_drag_reachable 300 1000)).
Defined.

(** ** Open and close *)



(** ** Drag feedback *)

Lemma clamp_unit v : 0 <= clamp v 0 1 <= 1.
Proof.
  unfold clamp, Math_max, Math_min.
  destruct (Qle_bool 1 v) eqn:E1.
  - cbn. lra.
  - destruct (Qle_bool 0 v) eqn:E0.
    + apply Qle_bool_iff in E0.
      destruct (Qlt_le_dec v 1) as [H | H]; [lra |].
      apply Qle_bool_iff in H. congruence.
    + lra.
Qed.

Lemma clamp_saturates v : 1 <= v -> clamp v 0 1 = 1.
Proof.
  intro H. unfold clamp, Math_max, Math_min.
  apply Qle_bool_iff in H. rewrite H. reflexivity.
Qed.

Lemma clamp_at_zero v : v == 0 -> clamp v 0 1 == 0.
Proof.
  intro H. unfold clamp, Math_max, Math_min.
  destruct (Qle_bool 1 v) eqn:E1.
  - apply Qle_bool_iff in E1. lra.
  - destruct (Qle_bool 0 v); lra.
Qed.

(** A move of the pointer that drives the drag shifts the image by the
    distance dragged and fades it to an opacity between 0.75 and 1:
    exactly 1 for no displacement, exactly 0.75 from 90% of the
    effective width on. *)
Theorem drag_feedback_bounds d s id x w :
  pointerDown (vars s) = true -> activePointerId (vars s) = Some id ->
  let s' := handle d (PointerMove id x w) s in
  let dx := x - startX (vars s) in
  deltaX (vars s') = dx
  /\ img_transform (img s') = Some dx
  /\ exists o, img_opacity (img s') = Some o
               /\ 0.75 <= o <= 1
               /\ (dx == 0 -> o == 1)
               /\ (Math_max 320 w * 0.9 <= Qabs dx -> o == 0.75).
Proof.
  intros Hd Ea. cbv zeta. cbn [handle]. unfold on_pointermove.
  rewrite Hd, Ea. cbn [opt_Z_eqb]. rewrite Z.eqb_refl. cbn [negb orb].
  split; [reflexivity |]. split; [reflexivity |].
  eexists. split; [reflexivity |].
  cbn [vars upd_vars set_deltaX deltaX].
  set (p := clamp _ 0 1).
  pose proof (Math_max_ge_l 320 w) as M.
  split; [pose proof (clamp_unit (Math_abs (x - startX (vars s))
                                  / (Math_max 320 w * 0.9))); fold p in H; lra |].
  split.
  - intro H0. assert (P : p == 0).
    { subst p. apply clamp_at_zero. unfold Math_abs. rewrite H0.
      unfold Qdiv. change (Qabs 0) with 0. ring. }
    rewrite P. ring.
  - intro H1. assert (P : p = 1).
    { subst p. apply clamp_saturates. unfold Math_abs.
      apply Qle_shift_div_l; lra. }
    rewrite P. reflexivity.
Qed.

Lemma drag_feedback_bounds_witness :
  exists o, img_opacity (img (handle sample_dom (PointerMove 1 300 1000)
                                (sample_drag 400 1000))) = Some o
            /\ 0.75 <= o <= 1.
Proof.
  destruct (drag_feedback_bounds sample_dom (sample_drag 400 1000) 1 300 1000
              eq_refl eq_refl) as (_ & _ & o & A & B & _).
  exists o. split; assumption.
Defined.

(** ** Animations *)

(** There is never more than one slide animation in flight;
    [isAnimating] is true exactly while there is one; and a drag and an
    animation never overlap. *)
Theorem one_animation_at_a_time d s :
  reachable d s ->
  (List.length (in_flight s) <= 1)%nat
  /\ (isAnimating (vars s) = true <-> in_flight s <> [])
  /\ ~ (pointerDown (vars s) = true /\ isAnimating (vars s) = true).
Proof.
  intro R. destruct (reachable_consistent d s R) as (_ & Hp & Hf).
  split; [rewrite Hf; destruct (isAnimating (vars s)); lia |]. split.
  - destruct (isAnimating (vars s)); destruct (in_flight s);
      cbn in Hf; split; intro; try discriminate; try congruence.
  - intros [A B]. rewrite (Hp A) in B. discriminate.
Qed.

Lemma one_animation_at_a_time_witness :
  (List.length (in_flight sample_animating) <= 1)%nat
  /\ in_flight sample_animating <> [].
Proof.
  destruct (one_animation_at_a_time sample_dom sample_animating
              sample_animating_reachable) as (A & B & _).
  split; [exact A | apply B; vm_compute; reflexivity].
Defined.

Lemma open_vars d i t s :
  isAnimating (vars (open d i t s)) = isAnimating (vars s)
  /\ pointerDown (vars (open d i t s)) = pointerDown (vars s).
Proof.
  unfold open. destruct (isOpen (vars s)); [split; reflexivity |].
  destruct (has_closeBtn d), (has_scroller d);
    cbn [vars upd_page]; rewrite setIndex_vars; split; reflexivity.
Qed.

Lemma close_vars d s :
  isAnimating (vars (close d s)) = isAnimating (vars s)
  /\ pointerDown (vars (close d s)) = pointerDown (vars s)
  /\ deltaX (vars (close d s)) = deltaX (vars s)
  /\ startT (vars (close d s)) = startT (vars s)
  /\ index (vars (close d s)) = index (vars s).
Proof.
  unfold close. destruct (isOpen (vars s)); [| repeat split].
  cbn [negb]. destruct (has_scroller d); cbn; destruct (lastActive (vars s));
    repeat split.
Qed.

(** Once an animation has started, nothing but the end of a transition
    clears [isAnimating]: every other event leaves it set and leaves no
    drag session open, so a transition that never ends blocks swiping
    for good. *)
Theorem animating_until_transition_end d s e :
  reachable d s -> isAnimating (vars s) = true -> e <> TransitionEnd ->
  isAnimating (vars (handle d e s)) = true
  /\ pointerDown (vars (handle d e s)) = false.
Proof.
  intros R Ha He.
  assert (Hd : pointerDown (vars s) = false).
  { destruct (reachable_consistent d s R) as (_ & Hp & _).
    destruct (pointerDown (vars s)); [| reflexivity].
    specialize (Hp eq_refl). congruence. }
  destruct e as [btn im | | | | k | id x now | id x w | id now w | id now w | |];
    cbn [handle].
  - destruct (indexOf d im >=? 0)%Z; [| auto].
    destruct (open_vars d (indexOf d im) (Some (GalleryBtn btn)) s) as [-> ->]. auto.
  - destruct (has_closeBtn d); [| auto].
    destruct (close_vars d s) as (-> & -> & _). auto.
  - destruct (has_btnPrev d); [| auto]. unfold prev. rewrite setIndex_vars. auto.
  - destruct (has_btnNext d); [| auto]. unfold next. rewrite setIndex_vars. auto.
  - unfold on_keydown. destruct (isOpen (vars s)); [| auto]. cbn [negb].
    destruct k; [destruct (close_vars d s) as (-> & -> & _) | unfold prev
                | unfold next |]; rewrite ?setIndex_vars; auto.
  - unfold on_pointerdown. rewrite Ha, orb_true_r. auto.
  - unfold on_pointermove. rewrite Hd. auto.
  - unfold finishSwipe. rewrite Hd. auto.
  - unfold finishSwipe. rewrite Hd. auto.
  - destruct (fold_run_raf (rafQueue (page s)) (upd_page (set_rafQueue []) s))
      as (Ev & _). cbv zeta in Ev. rewrite Ev. auto.
  - contradiction.
Qed.

Lemma animating_until_transition_end_witness :
  isAnimating (vars (handle sample_dom (PointerDown 3 20 1500)
                       sample_animating)) = true
  /\ pointerDown (vars (handle sample_dom (PointerDown 3 20 1500)
                          sample_animating)) = false.
Proof.
  apply (animating_until_transition_end sample_dom sample_animating
           (PointerDown 3 20 1500) sample_animating_reachable).
  - vm_compute. reflexivity.
  - discriminate.
Defined.

Lemma swipe_qualifies_dec dX startT now w :
  {swipe_qualifies dX startT now w} + {~ swipe_qualifies dX startT now w}.
Proof.
  destruct (gtb (Math_abs dX) (Math_max 320 w * 0.18)
            || gtb (Math_abs (dX / Math_max 1 (now - startT))) 0.65) eqn:E.
  - left. now apply swipe_decision.
  - right. rewrite <- swipe_decision, E. discriminate.
Qed.

Lemma fold_run_raf_dragging q : forall s,
  img_dragging (img s) = false ->
  img_dragging (img (fold_left (fun s t => run_raf t s) q s)) = false.
Proof.
  induction q as [| t q IH]; intros s H; [exact H |].
  cbn [fold_left]. apply IH. destruct t; [exact H | reflexivity].
Qed.

(** Every finished drag, committed or cancelled, is back at rest after
    the frame that starts its animation, the end of the transition and
    one more frame: no drag, no animation, nothing queued, and the
    image without drag class or inline style. *)
Theorem finished_drag_returns_to_rest d s e now w :
  reachable d s -> pointerDown (vars s) = true -> ends_drag e now w ->
  let s' := run d [e; AnimationFrame; TransitionEnd; AnimationFrame] s in
  pointerDown (vars s') = false
  /\ isAnimating (vars s') = false
  /\ in_flight s' = []
  /\ rafQueue (page s') = []
  /\ img_dragging (img s') = false
  /\ img_transform (img s') = None
  /\ img_opacity (img s') = None.
Proof.
  intros R Hd He. cbv zeta. cbn [run fold_left].
  rewrite (ends_drag_handle d e now w s He).
  destruct (dragging_idle d s R Hd) as [Ha Hf].
  destruct (swipe_qualifies_dec (deltaX (vars s)) (startT (vars s)) now w)
    as [Hq | Hq].
  - rewrite (finishSwipe_commit now w s Hd Ha Hq).
    match goal with
    | |- context [requestAnimationFrame (RafAnimate ?dx ?op ?cb) ?b] =>
        destruct (animation_plays d dx op cb b Hf) as (Ev & _ & _ & _ & Eq & ->);
        set (s2 := handle d AnimationFrame
                     (requestAnimationFrame (RafAnimate dx op cb) b)) in *
    end.
    clearbody s2. unfold done, run_callback.
    set (u := upd_vars (set_isAnimating false) (upd_img (set_listeners []) s2)).
    assert (U : forall x, exists src pl,
               setIndex d x u
               = mkState (set_index (js_rem (js_add x (N d)) (N d)) (vars u))
                         (set_src src (img u))
                         (set_preloaded (preloaded (page u) ++ pl) (page u))).
    { intro x. destruct (setIndex_shape d x u) as (src & pl & E & _). eauto. }
    unfold next, prev.
    destruct (ltb (deltaX (vars s)) 0); cbn [Z.eqb Pos.eqb];
      match goal with
      | |- context [setIndex d ?x u] =>
          destruct (U x) as (src & pl & ->)
      end;
      subst u; cbn; rewrite Ev, Eq; cbn; repeat split.
  - rewrite (finishSwipe_cancel now w s Hd Ha Hq).
    match goal with
    | |- context [requestAnimationFrame (RafAnimate ?dx ?op ?cb) ?b] =>
        pose proof (animation_plays d dx op cb b Hf) as (Ev & _ & _ & _ & Eq & E3);
        set (s2 := handle d AnimationFrame
                     (requestAnimationFrame (RafAnimate dx op cb) b)) in *
    end.
    assert (Dg : img_dragging (img s2) = false).
    { subst s2. cbn [handle].
      cbn [requestAnimationFrame upd_page page rafQueue set_rafQueue].
      rewrite fold_left_app. cbn [fold_left run_raf].
      cbn [upd_img img img_dragging set_listeners set_opacity set_transform].
      apply fold_run_raf_dragging. reflexivity. }
    rewrite E3. clearbody s2. unfold done, run_callback, resetVisual.
    cbn. rewrite Eq. cbn. rewrite Ev, Dg. repeat split.
Qed.

Lemma finished_drag_returns_to_rest_witness :
  let s' := run sample_dom
                [PointerUp 1 250 1000; AnimationFrame; TransitionEnd;
                 AnimationFrame] (sample_drag 300 1000) in
  isAnimating (vars s') = false /\ img_transform (img s') = None.
Proof.
  destruct (finished_drag_returns_to_rest sample_dom (sample_drag 300 1000)
              (PointerUp 1 250 1000) 250 1000
              (sample_drag_reachable 300 1000) eq_refl
              (ex_intro _ 1%Z (or_introl eq_refl)))
    as (_ & A & _ & _ & _ & B & _).
  split; assumption.
Defined.

(** ** Going round the gallery *)

Lemma next_index d s i :
  (1 <= N d)%Z -> (0 <= i < N d)%Z -> index (vars s) = Int i ->
  index (vars (next d s)) = Int ((i + 1) mod N d).
Proof.
  intros HN Hi Ei. unfold next. rewrite setIndex_vars, Ei. cbn [set_index index].
  apply step_index; auto.
Qed.

Lemma prev_index d s i :
  (1 <= N d)%Z -> (0 <= i < N d)%Z -> index (vars s) = Int i ->
  index (vars (prev d s)) = Int ((i - 1) mod N d).
Proof.
  intros HN Hi Ei. unfold prev. rewrite setIndex_vars, Ei. cbn [set_index index].
  apply (step_index d i (-1)); auto.
Qed.

Lemma iter_next_index d s i n :
  (1 <= N d)%Z -> (0 <= i < N d)%Z -> index (vars s) = Int i ->
  index (vars (Nat.iter n (next d) s)) = Int ((i + Z.of_nat n) mod N d).
Proof.
  intros HN Hi Ei. induction n as [| n IH].
  - cbn. rewrite Z.add_0_r, Z.mod_small by lia. exact Ei.
  - change (Nat.iter (S n) (next d) s) with (next d (Nat.iter n (next d) s)).
    rewrite (next_index d _ ((i + Z.of_nat n) mod N d) HN
               (Z.mod_pos_bound (i + Z.of_nat n) (N d) ltac:(lia)) IH).
    f_equal. rewrite Zplus_mod_idemp_l. f_equal. lia.
Qed.

(** Browsing is circular: [prev] undoes [next] and [next] undoes [prev]
    on the index, and as many [next]s as there are tiles come back to
    the tile they started from. *)
Theorem browsing_is_circular d s :
  reachable d s ->
  index (vars (prev d (next d s))) = index (vars s)
  /\ index (vars (next d (prev d s))) = index (vars s)
  /\ index (vars (Nat.iter (List.length (tiles d)) (next d) s))
     = index (vars s).
Proof.
  intro R. pose proof (reachable_nonempty d s R) as HN.
  destruct (reachable_consistent d s R) as ((i & Ei & Ri) & _).
  rewrite Ei. split; [| split].
  - rewrite (prev_index d _ ((i + 1) mod N d) HN
               (Z.mod_pos_bound (i + 1) (N d) ltac:(lia))
               (next_index d s i HN Ri Ei)).
    f_equal. rewrite Zminus_mod_idemp_l.
    replace (i + 1 - 1)%Z with i by lia. apply Z.mod_small. lia.
  - rewrite (next_index d _ ((i - 1) mod N d) HN
               (Z.mod_pos_bound (i - 1) (N d) ltac:(lia))
               (prev_index d s i HN Ri Ei)).
    f_equal. rewrite Zplus_mod_idemp_l.
    replace (i - 1 + 1)%Z with i by lia. apply Z.mod_small. lia.
  - rewrite (iter_next_index d s i _ HN Ri Ei). f_equal.
    fold (N d). replace (i + N d)%Z with (i + 1 * N d)%Z by lia.
    rewrite Z_mod_plus_full. apply Z.mod_small. lia.
Qed.

Lemma browsing_is_circular_witness :
  index (vars (Nat.iter 3 (next sample_dom) (sample_drag 300 1000)))
  = index (vars (sample_drag 300 1000)).
Proof.
  destruct (browsing_is_circular sample_dom (sample_drag 300 1000)
              (sample_drag_reachable 300 1000)) as (_ & _ & A).
  exact A.
Defined.

(** ** Drag sessions *)

(** A pointer-down during a drag is not refused: it restarts the
    session for the new pointer, from its position, at distance 0, and
    from then on the moves of any other pointer are ignored. *)
Theorem second_pointerdown_takes_over d s id x now :
  reachable d s -> isOpen (vars s) = true -> pointerDown (vars s) = true ->
  let s' := handle d (PointerDown id x now) s in
  pointerDown (vars s') = true
  /\ activePointerId (vars s') = Some id
  /\ startX (vars s') = x
  /\ deltaX (vars s') = 0
  /\ startT (vars s') = now
  /\ (forall id' x' w, id' <> id -> handle d (PointerMove id' x' w) s' = s').
Proof.
  intros R Ho Hd. cbv zeta.
  destruct (dragging_idle d s R Hd) as [Ha _].
  cbn [handle]. unfold on_pointerdown. rewrite Ho, Ha. cbn [negb orb].
  repeat split.
  intros id' x' w Hne. apply (foreign_pointermove_ignored d _ id); auto.
Qed.

Lemma second_pointerdown_takes_over_witness :
  let s' := handle sample_dom (PointerDown 2 40 90) (sample_drag 300 1000) in
  activePointerId (vars s') = Some 2%Z /\ deltaX (vars s') = 0.
Proof.
  destruct (second_pointerdown_takes_over sample_dom (sample_drag 300 1000)
              2 40 90 (sample_drag_reachable 300 1000) eq_refl eq_refl)
    as (_ & A & _ & B & _).
  split; assumption.
Defined.

(** Escape during a drag closes the lightbox but not the drag session:
    the distance and the start time stay on record, and when the
    pointer is lifted the swipe is judged as usual, so a qualifying
    swipe still moves the index one step while the lightbox stays
    closed. *)
Theorem escape_keeps_drag_session d s e now w i :
  reachable d s -> isOpen (vars s) = true -> pointerDown (vars s) = true ->
  index (vars s) = Int i -> ends_drag e now w ->
  let s1 := handle d (KeyDown Escape) s in
  let s4 := run d [e; AnimationFrame; TransitionEnd] s1 in
  isOpen (vars s1) = false
  /\ pointerDown (vars s1) = true
  /\ deltaX (vars s1) = deltaX (vars s)
  /\ startT (vars s1) = startT (vars s)
  /\ (swipe_qualifies (deltaX (vars s)) (startT (vars s)) now w ->
      isOpen (vars s4) = false
      /\ index (vars s4)
         = Int ((i + (if ltb (deltaX (vars s)) 0 then 1 else -1)) mod N d)).
Proof.
  intros R Ho Hd Ei He. cbv zeta.
  assert (R1 : reachable d (handle d (KeyDown Escape) s)) by now apply reach_step.
  set (s1 := handle d (KeyDown Escape) s) in *.
  assert (V : isOpen (vars s1) = false
              /\ pointerDown (vars s1) = true
              /\ deltaX (vars s1) = deltaX (vars s)
              /\ startT (vars s1) = startT (vars s)
              /\ index (vars s1) = Int i).
  { subst s1. cbn [handle]. unfold on_keydown. rewrite Ho. cbn [negb].
    destruct (close_vars d s) as (_ & -> & -> & -> & ->).
    unfold close. rewrite Ho. cbn [negb].
    destruct (has_scroller d); cbn; destruct (lastActive (vars s)); auto. }
  destruct V as (V1 & V2 & V3 & V4 & V5).
  clearbody s1. repeat split; auto.
  - cbn [run fold_left]. rewrite (ends_drag_handle d e now w s1 He).
    assert (Q : forall u ev, reachable d u -> opens_or_closes ev = false ->
                isOpen (vars (handle d ev u)) = isOpen (vars u)).
    { intros u ev Ru Hev.
      destruct (inner_step_kinds d u ev Ru Hev) as [(A & _) | (A & _)];
        unfold shell in A; congruence. }
    change (finishSwipe now w s1) with (handle d (PointerUp 0 now w) s1).
    rewrite !Q; auto using reach_step.
  - cbn [run fold_left]. rewrite (ends_drag_handle d e now w s1 He).
    rewrite <- V3. apply commit_plays; auto. now rewrite V3, V4.
Qed.

Lemma escape_keeps_drag_session_witness :
  let s1 := handle sample_dom (KeyDown Escape) (sample_drag 300 1000) in
  let s4 := run sample_dom [PointerUp 1 250 1000; AnimationFrame; TransitionEnd]
                s1 in
  isOpen (vars s4) = false /\ index (vars s4) = Int ((0 + 1) mod N sample_dom).
Proof.
  destruct (escape_keeps_drag_session sample_dom (sample_drag 300 1000)
              (PointerUp 1 250 1000) 250 1000 0
              (sample_drag_reachable 300 1000) eq_refl eq_refl eq_refl
              (ex_intro _ 1%Z (or_introl eq_refl)))
    as (_ & _ & _ & _ & K).
  apply K. left. vm_compute. reflexivity.
Defined.

End LightboxMore.

(* ===================================================================== *)
(** * Further properties of the ambient driver *)
(* ===================================================================== *)

Module AmbientMore.

Import Ambient AmbientFacts AmbientViews.
Import Reals Lra.
Local Open Scope R_scope.

Ltac case_ifs :=
  repeat match goal with
         | |- context [if ?b then _ else _] => destruct b
         end.

(** ** Frames while stopped, frames while running *)

Lemma frame_when_stopped c time s :
  reachable c s -> rafId s = None -> handle c (Frame time) s = s.
Proof.
  intros R E. destruct (reachable_ok c s R) as [L _].
  rewrite (frame_runs c time s L), E. reflexivity.
Qed.

(** Once the tab is hidden, frames do nothing: whatever frames the
    browser still delivers, no callback is scheduled and the state stays
    exactly as [stop] left it. *)
Theorem hidden_tab_does_no_work c s times :
  reachable c s ->
  let s1 := handle c (VisibilityChange true) s in
  rafId s1 = None
  /\ scheduled s1 = []
  /\ styleWrites s1 = styleWrites s
  /\ fold_left (fun u t => handle c (Frame t) u) times s1 = s1.
Proof.
  intro R. cbv zeta.
  assert (R1 : reachable c (handle c (VisibilityChange true) s))
    by now apply reach_step.
  set (s1 := handle c (VisibilityChange true) s) in *.
  assert (E : rafId s1 = None).
  { subst s1. cbn [handle]. unfold stop. destruct (rafId s) eqn:E'; [reflexivity | exact E']. }
  split; [exact E |]. split.
  - destruct (reachable_ok c s1 R1) as [L _]. rewrite L. unfold loop_handles.
    now rewrite E.
  - split.
    + subst s1. cbn [handle]. unfold stop. destruct (rafId s); reflexivity.
    + clearbody s1. induction times as [| t ts IH]; [reflexivity |].
      cbn [fold_left]. rewrite (frame_when_stopped c t s1 R1 E). exact IH.
Qed.

Lemma hidden_tab_does_no_work_witness :
  let s1 := handle sample_caps (VisibilityChange true) sample_running in
  fold_left (fun u t => handle sample_caps (Frame t) u) [16; 33; 50] s1 = s1.
Proof.
  destruct (hidden_tab_does_no_work sample_caps sample_running [16; 33; 50]
              sample_running_reachable) as (_ & _ & _ & A).
  exact A.
Defined.

(** A running loop keeps itself going: after any frames there is still
    exactly one callback scheduled, the one [rafId] names. *)
Theorem running_loop_rearms c s times :
  reachable c s -> rafId s <> None ->
  let s' := fold_left (fun u t => handle c (Frame t) u) times s in
  rafId s' <> None /\ List.length (scheduled s') = 1%nat.
Proof.
  intros R H. cbv zeta. revert s R H.
  induction times as [| t ts IH]; intros s R H; cbn [fold_left].
  - split; [exact H |]. destruct (reachable_ok c s R) as [L _].
    rewrite L. unfold loop_handles. destruct (rafId s); [reflexivity | congruence].
  - apply IH; [now apply reach_step |].
    destruct (reachable_ok c s R) as [L _].
    rewrite (frame_runs c t s L). destruct (rafId s) as [h |]; [| congruence].
    destruct (tick_loop c t (cancelAnimationFrame h s)) as [-> _]. discriminate.
Qed.

Lemma running_loop_rearms_witness :
  List.length (scheduled (fold_left (fun u t => handle sample_caps (Frame t) u)
                            [16; 33; 50] sample_running)) = 1%nat.
Proof.
  destruct (running_loop_rearms sample_caps sample_running [16; 33; 50]
              sample_running_reachable ltac:(discriminate)) as [_ A].
  exact A.
Defined.

(** ** The frame throttle *)

Lemma tick_throttled_fields c time s :
  time - lastFrame s < FRAME_MIN_MS ->
  styleWrites (tick c time s) = styleWrites s
  /\ lastFrame (tick c time s) = lastFrame s
  /\ lastTurb (tick c time s) = lastTurb s
  /\ baseFrequency (tick c time s) = baseFrequency s
  /\ (lastX (tick c time s), lastY (tick c time s), lastR (tick c time s))
     = (lastX s, lastY s, lastR s).
Proof. intro H. rewrite (tick_throttled c time s H). repeat split. Qed.

(** The update rate is bounded: a frame less than 33 ms after the last
    executed update changes nothing but the loop handle; in particular,
    after a frame at [t1] that executed, a frame at [t2 < t1 + 33]
    writes no style and no filter attribute. *)
Theorem throttle_bounds_update_rate c s t1 t2 :
  reachable c s -> rafId s <> None ->
  ~ t1 - lastFrame s < FRAME_MIN_MS -> t2 - t1 < FRAME_MIN_MS ->
  let s1 := handle c (Frame t1) s in
  let s2 := handle c (Frame t2) s1 in
  lastFrame s1 = t1
  /\ lastFrame s2 = t1
  /\ styleWrites s2 = styleWrites s1
  /\ baseFrequency s2 = baseFrequency s1
  /\ (lastX s2, lastY s2, lastR s2) = (lastX s1, lastY s1, lastR s1).
Proof.
  intros R H E1 E2. cbv zeta.
  assert (R1 : reachable c (handle c (Frame t1) s)) by now apply reach_step.
  destruct (reachable_ok c s R) as [L _].
  destruct (reachable_ok c _ R1) as [L1 _].
  assert (F : lastFrame (handle c (Frame t1) s) = t1).
  { rewrite (frame_runs c t1 s L). destruct (rafId s) as [h |]; [| congruence].
    apply tick_executed_lastFrame. exact E1. }
  assert (A : rafId (handle c (Frame t1) s) <> None).
  { rewrite (frame_runs c t1 s L). destruct (rafId s) as [h |]; [| congruence].
    destruct (tick_loop c t1 (cancelAnimationFrame h s)) as [-> _]. discriminate. }
  set (s1 := handle c (Frame t1) s) in *. clearbody s1.
  rewrite (frame_runs c t2 s1 L1). destruct (rafId s1) as [h1 |]; [| congruence].
  assert (T : t2 - lastFrame (cancelAnimationFrame h1 s1) < FRAME_MIN_MS)
    by (cbn; rewrite F; exact E2).
  destruct (tick_throttled_fields c t2 _ T) as (W & F2 & _ & B & Cc).
  split; [exact F |]. split; [rewrite F2; exact F |].
  split; [exact W |]. split; [exact B | exact Cc].
Qed.

Lemma throttle_bounds_update_rate_witness :
  styleWrites (handle sample_caps (Frame 50)
                 (handle sample_caps (Frame 33) sample_running))
  = styleWrites (handle sample_caps (Frame 33) sample_running).
Proof.
  destruct (throttle_bounds_update_rate sample_caps sample_running 33 50
              sample_running_reachable ltac:(discriminate)
              sample_first_frame_executes
              ltac:(unfold FRAME_MIN_MS; lra)) as (_ & _ & A & _).
  exact A.
Defined.

(** ** Turbulence *)

Lemma tick_baseFrequency c time s :
  baseFrequency (tick c time s) = baseFrequency s
  \/ (ENABLE_TURBULENCE c = true
      /\ baseFrequency (tick c time s)
         = Some (BASE_FREQ_X + sin (time * 0.001 * 0.22) * TURB_VARIANCE c,
                 BASE_FREQ_Y + cos (time * 0.001 * 0.19) * TURB_VARIANCE c)).
Proof.
  unfold tick, rearm. destruct (Rlt_dec _ _); [left; reflexivity |].
  cbv zeta. destruct (ENABLE_TURBULENCE c) eqn:E; cbn [andb].
  - match goal with
    | |- context [Rgt_dec ?a ?b] => destruct (Rgt_dec a b)
    end; [right; split; reflexivity | left; case_ifs; reflexivity].
  - left. case_ifs; reflexivity.
Qed.

Lemma baseFrequency_steps c e s :
  reachable c s ->
  baseFrequency (handle c e s) = baseFrequency s
  \/ (ENABLE_TURBULENCE c = true
      /\ exists t,
           baseFrequency (handle c e s)
           = Some (BASE_FREQ_X + sin (t * 0.22) * TURB_VARIANCE c,
                   BASE_FREQ_Y + cos (t * 0.19) * TURB_VARIANCE c)).
Proof.
  intro R. destruct (reachable_ok c s R) as [L _].
  destruct e as [time | [|] | |].
  - rewrite (frame_runs c time s L). destruct (rafId s) as [h |]; [| now left].
    destruct (tick_baseFrequency c time (cancelAnimationFrame h s)) as [E | [E1 E2]].
    + left. exact E.
    + right. split; [exact E1 |]. exists (time * 0.001). exact E2.
  - left. cbn [handle]. unfold stop. destruct (rafId s); reflexivity.
  - left. cbn [handle]. unfold start. destruct (rafId s); reflexivity.
  - left. cbn [handle]. unfold stop. destruct (rafId s); reflexivity.
  - left. cbn [handle]. unfold start. destruct (rafId s); reflexivity.
Qed.

(** The turbulence filter is left alone outside the ultra class: under
    reduced motion, on a narrow viewport, on iOS, with at most four
    cores or an unknown core count, or without the filter element, the
    driver never sets [baseFrequency]. *)
Theorem turbulence_only_in_ultra c s :
  reachable c s ->
  prefersReducedMotion c = true \/ isMobile c = true \/ isIOSSafari c = true
  \/ hardwareConcurrency c = None
  \/ (exists n, hardwareConcurrency c = Some n /\ (n <= 4)%nat)
  \/ has_turbulence c = false ->
  ENABLE_TURBULENCE c = false /\ baseFrequency s = None.
Proof.
  intros R H.
  assert (E : ENABLE_TURBULENCE c = false).
  { unfold ENABLE_TURBULENCE, ultraOK, lowCoreDevice.
    destruct H as [-> | [-> | [-> | [-> | [(n & -> & Hn) | ->]]]]];
      [| | | | assert (n = 0 \/ n = 1 \/ n = 2 \/ n = 3 \/ n = 4)%nat
                 as [-> | [-> | [-> | [-> | ->]]]] by lia |];
      cbn; rewrite ?andb_false_r; reflexivity. }
  split; [exact E |].
  induction R as [h0 s E0 | s e R IH].
  - unfold ambient_init in E0. destruct (negb (has_lightfield c)); [discriminate |].
    injection E0 as <-. reflexivity.
  - destruct (baseFrequency_steps c e s R) as [-> | [E' _]]; [exact IH | congruence].
Qed.

Lemma turbulence_only_in_ultra_witness :
  baseFrequency (handle sample_caps (Frame 200) sample_running) = None.
Proof.
  destruct (turbulence_only_in_ultra sample_caps
              (handle sample_caps (Frame 200) sample_running)
              (reach_step _ _ _ sample_running_reachable)
              (or_introl eq_refl)) as [_ A].
  exact A.
Defined.

(** Whenever the filter has been set, the device is in the ultra class
    (so not in reduced motion, and the variance in use is 0.0020, never
    0.0004) and the two frequencies lie within 0.002 of their base
    values 0.012 and 0.018. *)
Theorem turbulence_frequency_bounds c s fx fy :
  reachable c s -> baseFrequency s = Some (fx, fy) ->
  ultraOK c = true
  /\ prefersReducedMotion c = false
  /\ TURB_VARIANCE c = 0.0020
  /\ 0.010 <= fx <= 0.014
  /\ 0.016 <= fy <= 0.020.
Proof.
  intros R. revert fx fy.
  induction R as [h0 s E0 | s e R IH]; intros fx fy E.
  - unfold ambient_init in E0. destruct (negb (has_lightfield c)); [discriminate |].
    injection E0 as <-. discriminate.
  - destruct (baseFrequency_steps c e s R) as [K | (En & t & K)].
    + apply IH. congruence.
    + rewrite K in E. injection E as <- <-.
      unfold ENABLE_TURBULENCE in En. apply andb_true_iff in En. destruct En as [U _].
      assert (P : prefersReducedMotion c = false).
      { unfold ultraOK in U. destruct (prefersReducedMotion c); [discriminate | reflexivity]. }
      assert (V : TURB_VARIANCE c = 0.0020) by (unfold TURB_VARIANCE; now rewrite P).
      rewrite V. unfold BASE_FREQ_X, BASE_FREQ_Y.
      pose proof (SIN_bound (t * 0.22)). pose proof (COS_bound (t * 0.19)).
      repeat split; try assumption; lra.
Qed.

Lemma ultra_running_reachable : reachable ultra_caps sample_running.
Proof. apply (reach_init ultra_caps 1%positive). reflexivity. Qed.

Lemma gates_keep_lastTurb c t u :
  lastTurb (gate_r c t (gate_y c t (gate_x c t u))) = lastTurb u.
Proof. unfold gate_r, gate_y, gate_x. case_ifs; reflexivity. Qed.

Lemma ultra_first_turbulence :
  baseFrequency (handle ultra_caps (Frame 200) sample_running)
  = Some (BASE_FREQ_X + sin (200 * 0.001 * 0.22) * TURB_VARIANCE ultra_caps,
          BASE_FREQ_Y + cos (200 * 0.001 * 0.19) * TURB_VARIANCE ultra_caps).
Proof.
  destruct (reachable_ok _ _ ultra_running_reachable) as [L _].
  rewrite (frame_runs ultra_caps 200 sample_running L).
  cbn [rafId sample_running start rearm requestAnimationFrame set_rafId
       set_lastTurb set_lastFrame nextHandle].
  rewrite tick_executed by (unfold FRAME_MIN_MS; cbn; lra).
  unfold turbulence_step. rewrite gates_keep_lastTurb.
  change (ENABLE_TURBULENCE ultra_caps) with true. cbn [andb].
  destruct (Rgt_dec _ _) as [_ | K]; [reflexivity |].
  exfalso. apply K. unfold TURB_UPDATE_MS. cbn. lra.
Qed.

Lemma turbulence_frequency_bounds_witness :
  0.010 <= BASE_FREQ_X + sin (200 * 0.001 * 0.22) * TURB_VARIANCE ultra_caps
        <= 0.014.
Proof.
  destruct (turbulence_frequency_bounds ultra_caps _ _ _
              (reach_step _ _ (Frame 200) ultra_running_reachable)
              ultra_first_turbulence) as (_ & _ & _ & A & _).
  exact A.
Defined.

(** ** The drift stays within its amplitudes *)

Lemma AMP_cases c :
  (AMP_X c = 8 /\ AMP_Y c = 6) \/ (AMP_X c = 24 /\ AMP_Y c = 16)
  \/ (AMP_X c = 56 /\ AMP_Y c = 40).
Proof. unfold AMP_X, AMP_Y. case_ifs; auto. Qed.

Lemma drift_bounds c t :
  Rabs (drift_x c t) <= 2.1 * AMP_X c
  /\ Rabs (drift_y c t) <= 2.2 * AMP_Y c
  /\ Rabs (drift_rotation c t) <= 1.
Proof.
  unfold drift_x, drift_y, drift_rotation, travelX, travelY.
  pose proof (SIN_bound (t * 0.10)). pose proof (SIN_bound (t * 0.35)).
  pose proof (SIN_bound (t * 0.18)). pose proof (COS_bound (t * 0.09)).
  pose proof (COS_bound (t * 0.30)). pose proof (SIN_bound (t * 0.22)).
  pose proof (SIN_bound (t * 0.12)).
  destruct (AMP_cases c) as [[-> ->] | [[-> ->] | [-> ->]]];
    (split; [| split]); apply Rabs_le;
    try (destruct (prefersReducedMotion c)); lra.
Qed.

Lemma tick_new_writes c time s w :
  In w (styleWrites (tick c time s)) ->
  In w (styleWrites s)
  \/ w = (LfX, drift_x c (time * 0.001))
  \/ w = (LfY, drift_y c (time * 0.001))
  \/ w = (LfR, drift_rotation c (time * 0.001)).
Proof.
  unfold tick, rearm. case_ifs; cbn; intuition (subst; auto).
Qed.

(** Every value the driver ever writes stays within the amplitudes:
    |x| <= 2.1 AMP_X (at most 117.6), |y| <= 2.2 AMP_Y (at most 88) and
    |rotation| <= 1. *)
Theorem written_drift_within_amplitude c s v x :
  reachable c s -> In (v, x) (styleWrites s) ->
  match v with
  | LfX => Rabs x <= 2.1 * AMP_X c /\ Rabs x <= 117.6
  | LfY => Rabs x <= 2.2 * AMP_Y c /\ Rabs x <= 88
  | LfR => Rabs x <= 1
  end.
Proof.
  intros R H.
  assert (K : within_amplitude c (v, x)).
  { revert H. induction R as [h0 s E0 | s e R IH]; intro H.
    - unfold ambient_init in E0. destruct (negb (has_lightfield c)); [discriminate |].
      injection E0 as <-. contradiction.
    - destruct (reachable_ok c s R) as [L _].
      destruct e as [time | [|] | |].
      + rewrite (frame_runs c time s L) in H.
        destruct (rafId s) as [h |]; [| auto].
        destruct (drift_bounds c (time * 0.001)) as (Bx & By & Br).
        destruct (tick_new_writes c time _ _ H) as [K | [K | [K | K]]];
          [apply IH; exact K | | |]; injection K as -> ->; assumption.
      + apply IH. revert H. cbn [handle]. unfold stop. now destruct (rafId s).
      + apply IH. revert H. cbn [handle]. unfold start. now destruct (rafId s).
      + apply IH. revert H. cbn [handle]. unfold stop. now destruct (rafId s).
      + apply IH. revert H. cbn [handle]. unfold start. now destruct (rafId s). }
  unfold within_amplitude in K. cbn [fst snd] in K.
  destruct v; [| | exact K];
    (split; [exact K |]);
    destruct (AMP_cases c) as [[Ex Ey] | [[Ex Ey] | [Ex Ey]]];
    rewrite ?Ex, ?Ey in K; lra.
Qed.

Lemma later_gates_keep_writes c time u w :
  In w (styleWrites u) ->
  In w (styleWrites (rearm (turbulence_step c time
                              (gate_r c time (gate_y c time u))))).
Proof.
  unfold rearm, turbulence_step, gate_r, gate_y. case_ifs; cbn; auto.
Qed.

Lemma first_frame_writes_x :
  In (LfX, drift_x sample_caps (33 * 0.001))
     (styleWrites (handle sample_caps (Frame 33) sample_running)).
Proof.
  destruct (reachable_ok _ _ sample_running_reachable) as [L _].
  rewrite (frame_runs sample_caps 33 sample_running L).
  cbn [rafId sample_running start rearm requestAnimationFrame set_rafId
       set_lastTurb set_lastFrame nextHandle].
  rewrite tick_executed by (unfold FRAME_MIN_MS; cbn; lra).
  apply later_gates_keep_writes. left. reflexivity.
Qed.

Lemma written_drift_within_amplitude_witness :
  Rabs (drift_x sample_caps (33 * 0.001)) <= 117.6.
Proof.
  exact (proj2 (written_drift_within_amplitude sample_caps _ LfX _
                  (reach_step _ _ (Frame 33) sample_running_reachable)
                  first_frame_writes_x)).
Defined.

End AmbientMore.

(* ===================================================================== *)
(** * Properties of the menu *)
(* ===================================================================== *)

Module MenuFacts.

Import Menu.
Local Open Scope string_scope.

Lemma remove_only (h : positive) : List.remove Pos.eq_dec h [h] = [].
Proof. cbn. destruct (Pos.eq_dec h h); [reflexivity | contradiction]. Qed.

Lemma openMenu_coupled d s : coupled s -> coupled (openMenu d s).
Proof.
  intros (A & B & C & D). unfold openMenu.
  destruct (isOpen s) eqn:Ho; [unfold coupled; rewrite Ho; auto |].
  cbn [setPerfMode set_panel_hidden hideTimer].
  assert (T : forall h, List.remove Pos.eq_dec h (timers s) = []
                        \/ hideTimer s <> Some h).
  { intro h. destruct C as [T | (h' & T & Eh)].
    - left. rewrite T. reflexivity.
    - destruct (Pos.eq_dec h h') as [-> | Hne].
      + left. rewrite T. apply remove_only.
      + right. congruence. }
  destruct (hideTimer s) as [h |] eqn:Eh.
  - destruct (T h) as [T' | ?]; [| congruence].
    destruct (has_link d); unfold coupled, timers_tracked; cbn; rewrite T';
      repeat split; auto; discriminate.
  - assert (T0 : timers s = [])
      by (destruct C as [T0 | (h' & _ & ?)]; [exact T0 | congruence]).
    destruct (has_link d); unfold coupled, timers_tracked; cbn; rewrite T0;
      repeat split; auto; discriminate.
Qed.

Lemma closeMenu_coupled s : coupled s -> coupled (closeMenu s).
Proof.
  intros (A & B & C & D). unfold closeMenu.
  destruct (isOpen s) eqn:Ho; cbn [negb];
    [| unfold coupled; rewrite Ho; auto].
  destruct (B eq_refl) as (_ & _ & T).
  unfold coupled, timers_tracked. cbn. rewrite T. cbn.
  split; [repeat split |]. split; [discriminate |]. split.
  - right. eexists. split; reflexivity.
  - intros _. right. discriminate.
Qed.

Lemma timer_coupled d s h : coupled s -> coupled (handle d (TimerFires h) s).
Proof.
  intros (A & B & C & D). cbn [handle].
  destruct (in_dec Pos.eq_dec h (timers s)) as [Hin | _];
    [| unfold coupled; auto].
  destruct C as [T | (h' & T & Eh)]; [rewrite T in Hin; contradiction |].
  rewrite T in Hin. destruct Hin as [<- | []].
  unfold hide_after_close. cbn [clearTimeout isOpen].
  destruct (isOpen s) eqn:Ho.
  - destruct (B eq_refl) as (_ & _ & T'). congruence.
  - destruct A as (A1 & A2 & A3).
    unfold coupled, timers_tracked. cbn. rewrite T, remove_only, Ho.
    split; [repeat split; assumption |]. split; [discriminate |].
    split; [now left | intros _; now left].
Qed.

(** The coupling every run of the controller maintains. *)
Lemma reachable_coupled d s : reachable d s -> coupled s.
Proof.
  induction 1 as [cls0 f0 h0 s E | s e R IH].
  - unfold menu_init in E. destruct (negb (has_root d)); [discriminate |].
    destruct (_ || _); [discriminate |]. injection E as <-.
    unfold coupled, timers_tracked. cbn.
    split; [repeat split |]. split; [discriminate |].
    split; [now left | intros _; now left].
  - destruct e as [| escape | inside | on_link | h].
    + cbn [handle]. destruct (isOpen s);
        [apply closeMenu_coupled | apply openMenu_coupled]; exact IH.
    + cbn [handle]. destruct escape; [apply closeMenu_coupled |]; exact IH.
    + cbn [handle]. destruct (negb (isOpen s)); [exact IH |].
      destruct (negb inside); [apply closeMenu_coupled |]; exact IH.
    + cbn [handle]. destruct (negb on_link); [| apply closeMenu_coupled]; exact IH.
    + apply timer_coupled, IH.
Qed.

(** The flag and the three attributes the controller writes never
    disagree: [data-open] and [aria-expanded] spell the flag, the
    panel's [aria-hidden] its negation. *)
Theorem menu_attributes_mirror_state d s :
  reachable d s ->
  data_open s = js_bool (isOpen s)
  /\ aria_expanded s = js_bool (isOpen s)
  /\ aria_hidden s = js_bool (negb (isOpen s)).
Proof. intro R. apply (reachable_coupled d s R). Qed.

Lemma sample_closed_reachable : reachable sample_dom sample_closed.
Proof. apply (reach_init sample_dom false Elsewhere 1%positive). reflexivity. Qed.

Lemma menu_attributes_mirror_state_witness :
  aria_expanded (handle sample_dom ToggleClick sample_closed) = "true"
  /\ aria_hidden (handle sample_dom ToggleClick sample_closed) = "false".
Proof.
  destruct (menu_attributes_mirror_state sample_dom
              (handle sample_dom ToggleClick sample_closed)
              (reach_step _ _ ToggleClick sample_closed_reachable))
    as (_ & A & B).
  split; [exact A | exact B].
Defined.

(** An open menu is never hidden: its panel is un-hidden, the
    performance class is on, no hide timer is pending, and a timer of an
    earlier close that still fires leaves the panel visible. *)
Theorem open_menu_stays_visible d s h :
  reachable d s -> isOpen s = true ->
  panel_hidden s = false
  /\ menu_open_class s = true
  /\ timers s = []
  /\ handle d (TimerFires h) s = s.
Proof.
  intros R Ho. destruct (reachable_coupled d s R) as (_ & B & _).
  destruct (B Ho) as (B1 & B2 & B3). repeat split; auto.
  cbn [handle]. rewrite B3.
  destruct (in_dec Pos.eq_dec h []) as [[] | _]. reflexivity.
Qed.

(** Close and reopen before the hide timer is due: the timer is
    cancelled and the panel stays up. *)
Lemma open_menu_stays_visible_witness :
  let s := run_three in
  panel_hidden s = false /\ timers s = [].
Proof.
  destruct (open_menu_stays_visible sample_dom run_three 1
              (reach_step _ _ ToggleClick
                 (reach_step _ _ ToggleClick
                    (reach_step _ _ ToggleClick sample_closed_reachable)))
              eq_refl) as (A & _ & B & _).
  split; [exact A | exact B].
Defined.

(** A closed menu ends up hidden: either its panel is hidden already, or
    exactly one hide timer is pending, the one [hideTimer] names, and
    when it fires the panel is hidden and no timer is left. *)
Theorem closed_menu_ends_hidden d s :
  reachable d s -> isOpen s = false ->
  panel_hidden s = true
  \/ exists h, timers s = [h] /\ hideTimer s = Some h
               /\ panel_hidden (handle d (TimerFires h) s) = true
               /\ timers (handle d (TimerFires h) s) = []
               /\ isOpen (handle d (TimerFires h) s) = false.
Proof.
  intros R Ho. destruct (reachable_coupled d s R) as (_ & _ & C & D).
  destruct (D Ho) as [H | H]; [now left |].
  destruct C as [T | (h & T & Eh)]; [contradiction |].
  right. exists h. split; [exact T |]. split; [exact Eh |].
  cbn [handle]. rewrite T.
  destruct (in_dec Pos.eq_dec h [h]) as [_ | K]; [| exfalso; apply K; now left].
  unfold hide_after_close. cbn [clearTimeout isOpen]. rewrite Ho. cbn.
  rewrite T, remove_only. repeat split; auto.
Qed.

Lemma closed_menu_ends_hidden_witness :
  let s := handle sample_dom (KeyDown true)
             (handle sample_dom ToggleClick sample_closed) in
  panel_hidden s = false
  /\ panel_hidden (handle sample_dom (TimerFires 1) s) = true.
Proof.
  intro s. split; [reflexivity |].
  destruct (closed_menu_ends_hidden sample_dom s
              (reach_step _ _ (KeyDown true)
                 (reach_step _ _ ToggleClick sample_closed_reachable))
              eq_refl) as [K | (h & T & _ & A & _)].
  - discriminate K.
  - injection T as <-. exact A.
Defined.

End MenuFacts.

(* ===================================================================== *)
(** * Properties of the translation toggles *)
(* ===================================================================== *)

Module ToggleFacts.

Local Open Scope string_scope.

(** ** Tagline *)

Lemma tagline_after_click s :
  Tagline.click s = Tagline.setLang "es" \/ Tagline.click s = Tagline.setLang "en".
Proof. unfold Tagline.click. destruct (Tagline.lang_is s "es"); auto. Qed.

Lemma tagline_clicks_succ n s :
  Tagline.clicks (S n) s = Tagline.click (Tagline.clicks n s).
Proof. reflexivity. Qed.

(** Whatever [data-lang] the page starts with and however often the
    button is clicked, exactly one of the two spans is hidden and
    [aria-pressed] tells whether it is the Spanish one; after the first
    click the language is "es" or "en", and from then on two clicks
    bring back the same state. *)
Theorem tagline_shows_one_language l0 n s0 :
  Tagline.tagline_init true true true l0 = Some s0 ->
  let s := Tagline.clicks n s0 in
  Tagline.en_hidden s = negb (Tagline.es_hidden s)
  /\ Tagline.aria_pressed s = (if Tagline.es_hidden s then "true" else "false")
  /\ ((1 <= n)%nat ->
      (Tagline.lang s = Some "es" \/ Tagline.lang s = Some "en")
      /\ Tagline.click (Tagline.click s) = s).
Proof.
  intros E s. injection E as <-.
  assert (K : s = Tagline.setLang (Tagline.initial_lang l0) /\ n = O
              \/ s = Tagline.setLang "es" \/ s = Tagline.setLang "en").
  { subst s. destruct n as [| n]; [left; split; reflexivity | right].
    rewrite tagline_clicks_succ. apply tagline_after_click. }
  destruct K as [[-> ->] | [-> | ->]].
  - split; [reflexivity |]. split; [| lia].
    cbn. destruct (String.eqb _ "en"); reflexivity.
  - repeat split; auto.
  - repeat split; auto.
Qed.

Lemma tagline_shows_one_language_witness :
  let s := Tagline.clicks 3 (Tagline.setLang "es") in
  Tagline.lang s = Some "en" /\ Tagline.es_hidden s = true
  /\ Tagline.click (Tagline.click s) = s.
Proof.
  intro s.
  destruct (tagline_shows_one_language None 3 (Tagline.setLang "es") eq_refl)
    as (_ & _ & K).
  destruct (K ltac:(lia)) as [_ B].
  split; [reflexivity | split; [reflexivity | exact B]].
Defined.

(** With a [data-lang] that is neither empty, "es" nor "en", the tagline
    shows Spanish and the first click changes nothing on screen: it only
    sets the language to "es".  The second click shows English. *)
Theorem tagline_unknown_language_first_click l s0 :
  l <> EmptyString -> l <> "es" -> l <> "en" ->
  Tagline.tagline_init true true true (Some l) = Some s0 ->
  (Tagline.lang s0 = Some l /\ Tagline.es_hidden s0 = false
   /\ Tagline.en_hidden s0 = true)
  /\ (Tagline.lang (Tagline.click s0) = Some "es"
      /\ Tagline.es_hidden (Tagline.click s0) = false
      /\ Tagline.en_hidden (Tagline.click s0) = true)
  /\ (Tagline.lang (Tagline.clicks 2 s0) = Some "en"
      /\ Tagline.es_hidden (Tagline.clicks 2 s0) = true
      /\ Tagline.en_hidden (Tagline.clicks 2 s0) = false).
Proof.
  intros H0 H1 H2 E. injection E as <-.
  apply String.eqb_neq in H0, H1, H2.
  unfold Tagline.clicks, Tagline.click, Tagline.lang_is, Tagline.setLang,
    Tagline.initial_lang.
  cbn. rewrite H0. cbn. rewrite H1, H2. cbn. repeat split.
Qed.

Lemma tagline_unknown_language_first_click_witness :
  Tagline.es_hidden (Tagline.setLang "fr") = false
  /\ Tagline.es_hidden (Tagline.click (Tagline.setLang "fr")) = false.
Proof.
  destruct (tagline_unknown_language_first_click "fr" (Tagline.setLang "fr")
              ltac:(discriminate) ltac:(discriminate) ltac:(discriminate)
              eq_refl) as ((_ & A & _) & (_ & B & _) & _).
  split; [exact A | exact B].
Defined.

(** ** About lead *)

Lemma about_after_click s :
  AboutLead.click s = AboutLead.setLang "es"
  \/ AboutLead.click s = AboutLead.setLang "en".
Proof. unfold AboutLead.click. destruct (AboutLead.lang_is s "en"); auto. Qed.

(** The about-lead button keeps the same discipline with the roles of
    the two languages swapped: one span hidden at any time,
    [aria-pressed] when the English one is, "es" or "en" after the
    first click, and two clicks for a round trip. *)
Theorem about_lead_shows_one_language l0 n s0 :
  AboutLead.about_lead_init true true true l0 = Some s0 ->
  let s := AboutLead.clicks n s0 in
  AboutLead.es_hidden s = negb (AboutLead.en_hidden s)
  /\ AboutLead.aria_pressed s
     = (if AboutLead.en_hidden s then "true" else "false")
  /\ ((1 <= n)%nat ->
      (AboutLead.lang s = Some "es" \/ AboutLead.lang s = Some "en")
      /\ AboutLead.click (AboutLead.click s) = s).
Proof.
  intros E s. injection E as <-.
  assert (K : s = AboutLead.setLang (AboutLead.initial_lang l0) /\ n = O
              \/ s = AboutLead.setLang "es" \/ s = AboutLead.setLang "en").
  { subst s. destruct n as [| n]; [left; split; reflexivity | right].
    change (AboutLead.clicks (S n) ?x)
      with (AboutLead.click (AboutLead.clicks n x)).
    apply about_after_click. }
  destruct K as [[-> ->] | [-> | ->]].
  - split; [reflexivity |]. split; [| lia].
    cbn. destruct (String.eqb _ "es"); reflexivity.
  - repeat split; auto.
  - repeat split; auto.
Qed.

Lemma about_lead_shows_one_language_witness :
  let s := AboutLead.clicks 1 (AboutLead.setLang "en") in
  AboutLead.lang s = Some "es" /\ AboutLead.click (AboutLead.click s) = s.
Proof.
  intro s.
  destruct (about_lead_shows_one_language None 1 (AboutLead.setLang "en") eq_refl)
    as (_ & _ & K).
  destruct (K ltac:(lia)) as [_ B].
  split; [reflexivity | exact B].
Defined.

(** With an unrecognised [data-lang] the about lead shows English, and
    its first click, too, changes nothing on screen. *)
Theorem about_lead_unknown_language_first_click l s0 :
  l <> EmptyString -> l <> "es" -> l <> "en" ->
  AboutLead.about_lead_init true true true (Some l) = Some s0 ->
  (AboutLead.lang s0 = Some l /\ AboutLead.en_hidden s0 = false
   /\ AboutLead.es_hidden s0 = true)
  /\ (AboutLead.lang (AboutLead.click s0) = Some "en"
      /\ AboutLead.en_hidden (AboutLead.click s0) = false
      /\ AboutLead.es_hidden (AboutLead.click s0) = true)
  /\ (AboutLead.lang (AboutLead.clicks 2 s0) = Some "es"
      /\ AboutLead.en_hidden (AboutLead.clicks 2 s0) = true
      /\ AboutLead.es_hidden (AboutLead.clicks 2 s0) = false).
Proof.
  intros H0 H1 H2 E. injection E as <-.
  apply String.eqb_neq in H0, H1, H2.
  unfold AboutLead.clicks, AboutLead.click, AboutLead.lang_is,
    AboutLead.setLang, AboutLead.initial_lang.
  cbn. rewrite H0. cbn. rewrite H1, H2. cbn. repeat split.
Qed.

Lemma about_lead_unknown_language_first_click_witness :
  AboutLead.en_hidden (AboutLead.setLang "fr") = false
  /\ AboutLead.en_hidden (AboutLead.click (AboutLead.setLang "fr")) = false.
Proof.
  destruct (about_lead_unknown_language_first_click "fr"
              (AboutLead.setLang "fr")
              ltac:(discriminate) ltac:(discriminate) ltac:(discriminate)
              eq_refl) as ((_ & A & _) & (_ & B & _) & _).
  split; [exact A | exact B].
Defined.

End ToggleFacts.
